(** * Invoice Visual Analyzer: a shallow embedding of [main.py]

    The development follows the layout of the program:

    - [PyStr]: the methods of Python's [str] that the program calls
      ([lower], [replace], [title], [strip]) and the character classes
      of the [re] module ([\d], [\s], [\w]);
    - [Re]: the fragment of Python's backtracking regular expressions
      that the patterns of [main.py] are written in, with [search] and
      [findall], and a declarative account of what a match is;
    - [PyFloat]: [float] on decimal literals (the nearest IEEE-754
      double) and [max] with a key;
    - [Fields]: [extract_date] and [extract_total];
    - [Preprocess]: the OpenCV chain of [preprocess_image];
    - [Store]: [load_saved_data] and [save_invoice_data];
    - [Analyze]: the loop of the [/analyze] route;
    - [Params]: the form parameters of the [/preview] and [/analyze]
      routes.

    Characters are the 8-bit characters of [Ascii]: code points 0-127
    behave as in Python, code points 128-255 are classified the way
    Python classifies the Latin-1 block of Unicode. *)

From Stdlib Require Import Ascii String ZArith NArith Lia Bool Arith QArith Qabs List.
Import ListNotations.
Close Scope Q_scope.

Set Implicit Arguments.

(* ================================================================= *)
(** ** Python strings *)

Module PyStr.

Definition text := list ascii.

Definition code (c : ascii) : N := N_of_ascii c.

Definition between (lo hi : N) (c : ascii) : bool :=
  ((lo <=? code c) && (code c <=? hi))%N.

Definition is_char (x : ascii) (c : ascii) : bool := Ascii.eqb c x.

(** [[0-9]]; also [\d], whose only members below code point 256 are the
    ASCII digits. *)
Definition is_digit (c : ascii) : bool := between 48 57 c.

(** [\s]: the characters for which [str.isspace] holds. *)
Definition is_space (c : ascii) : bool :=
  between 9 13 c || between 28 32 c
  || (code c =? 133)%N || (code c =? 160)%N.

Definition is_upper (c : ascii) : bool :=
  between 65 90 c || between 192 214 c || between 216 222 c.

Definition is_lower (c : ascii) : bool :=
  between 97 122 c || between 223 246 c || between 248 255 c
  || (code c =? 170)%N || (code c =? 181)%N || (code c =? 186)%N.

(** [\w]: alphanumeric characters and the underscore. *)
Definition is_word (c : ascii) : bool :=
  is_digit c || is_upper c || is_lower c || (code c =? 95)%N
  || (code c =? 178)%N || (code c =? 179)%N || (code c =? 185)%N
  || between 188 190 c.

Definition lower_char (c : ascii) : ascii :=
  if is_upper c then ascii_of_N (code c + 32) else c.

(** Upper-casing stays inside the block for every lower-case letter
    except U+00AA, U+00B5, U+00BA, U+00DF and U+00FF, which are left
    alone here. *)
Definition upper_char (c : ascii) : ascii :=
  if between 97 122 c || between 224 246 c || between 248 254 c
  then ascii_of_N (code c - 32) else c.

(** [str.lower()] *)
Definition lower (s : text) : text := map lower_char s.

(** [str.replace(old, new)] for one-character [old] and [new]. *)
Definition replace (old new : ascii) (s : text) : text :=
  map (fun c => if Ascii.eqb c old then new else c) s.

(** [str.title()]: a cased character that follows an uncased one is
    upper-cased, a cased character that follows a cased one is
    lower-cased. *)
Fixpoint title_from (previous_is_cased : bool) (s : text) : text :=
  match s with
  | [] => []
  | c :: s' =>
      if is_lower c then
        (if previous_is_cased then c else upper_char c) :: title_from true s'
      else if is_upper c then
        (if previous_is_cased then lower_char c else c) :: title_from true s'
      else c :: title_from false s'
  end.

Definition title (s : text) : text := title_from false s.

Fixpoint lstrip (s : text) : text :=
  match s with
  | c :: s' => if is_space c then lstrip s' else s
  | [] => []
  end.

(** [str.strip()] *)
Definition strip (s : text) : text := rev (lstrip (rev (lstrip s))).

(** Truth value of an optional string in a condition: [None] and the
    empty string are false. *)
Definition truthy (o : option text) : bool :=
  match o with
  | Some (_ :: _) => true
  | _ => false
  end.

Definition of_string (s : string) : text := list_ascii_of_string s.
Definition to_string (s : text) : string := string_of_list_ascii s.

End PyStr.

(* ================================================================= *)
(** ** Regular expressions *)

Module Re.
Import PyStr.

(** The constructs the patterns of [main.py] use.  Every repetition in
    them is over a single-character class, so [Repeat] carries a class;
    [*], [+] and [{m,n}] are its instances.  All quantifiers are
    greedy. *)
Inductive regex : Type :=
| Eps
| Class (p : ascii -> bool)
| Seq (r1 r2 : regex)
| Alt (r1 r2 : regex)
| Repeat (p : ascii -> bool) (lo : nat) (hi : option nat)
| Opt (r : regex)
| WordB
| Group (i : nat) (r : regex).

Definition Star (p : ascii -> bool) : regex := Repeat p 0 None.
Definition Plus (p : ascii -> bool) : regex := Repeat p 1 None.
Definition Times (p : ascii -> bool) (lo hi : nat) : regex := Repeat p lo (Some hi).

Fixpoint literal (s : text) : regex :=
  match s with
  | [] => Eps
  | [c] => Class (is_char c)
  | c :: s' => Seq (Class (is_char c)) (literal s')
  end.

Definition Lit (s : string) : regex := literal (of_string s).

Fixpoint seq (rs : list regex) : regex :=
  match rs with
  | [] => Eps
  | [r] => r
  | r :: rs' => Seq r (seq rs')
  end.

Fixpoint alt (rs : list regex) : regex :=
  match rs with
  | [] => Class (fun _ => false)
  | [r] => r
  | r :: rs' => Alt r (alt rs')
  end.

(** Captured groups, most recent binding first. *)
Definition groups := list (nat * text).

Fixpoint lookup (i : nat) (g : groups) : option text :=
  match g with
  | [] => None
  | (j, w) :: g' => if Nat.eqb i j then Some w else lookup i g'
  end.

(** A position in the subject is a pair [(b, a)]: the characters before
    it, nearest first, and the characters after it. *)

(** [\b]: exactly one of the two neighbours is a word character. *)
Definition at_boundary (b a : text) : bool :=
  xorb (match b with c :: _ => is_word c | [] => false end)
       (match a with c :: _ => is_word c | [] => false end).

(** The text between position [(b, _)] and a later position [(b', _)]. *)
Definition consumed (b b' : text) : text :=
  rev (firstn (length b' - length b) b').

Definition cont (A : Type) := text -> text -> groups -> option A.

Definition within (hi : option nat) (n : nat) : Prop :=
  match hi with Some h => n <= h | None => True end.

(** Greedy repetition of a class: take a character when allowed, and
    fall back to stopping here when the rest fails. *)
Fixpoint rep (A : Type) (p : ascii -> bool) (lo : nat) (hi : option nat)
    (b a : text) (g : groups) (k : cont A) {struct a} : option A :=
  let stop := match lo with O => k b a g | S _ => None end in
  match hi with
  | Some O => stop
  | _ =>
      match a with
      | c :: a' =>
          if p c then
            match rep p (pred lo) (option_map pred hi) (c :: b) a' g k with
            | Some x => Some x
            | None => stop
            end
          else stop
      | [] => stop
      end
  end.

(** The backtracking matcher, in continuation-passing style: [k] is the
    rest of the pattern, and a [None] from it makes the matcher try its
    next alternative, in the order Python's engine tries them. *)
Fixpoint run (A : Type) (r : regex) (b a : text) (g : groups) (k : cont A)
    {struct r} : option A :=
  match r with
  | Eps => k b a g
  | Class p =>
      match a with
      | c :: a' => if p c then k (c :: b) a' g else None
      | [] => None
      end
  | Seq r1 r2 => run r1 b a g (fun b' a' g' => run r2 b' a' g' k)
  | Alt r1 r2 =>
      match run r1 b a g k with
      | Some x => Some x
      | None => run r2 b a g k
      end
  | Repeat p lo hi => rep p lo hi b a g k
  | Opt r1 =>
      match run r1 b a g k with
      | Some x => Some x
      | None => k b a g
      end
  | WordB => if at_boundary b a then k b a g else None
  | Group i r1 =>
      run r1 b a g (fun b' a' g' => k b' a' ((i, consumed b b') :: g'))
  end.

(** A match object: what precedes the match, the match ([group()]),
    what follows it, and the groups. *)
Record match_object : Type := MatchObject {
  m_pre : text;
  m_group0 : text;
  m_post : text;
  m_groups : groups
}.

Definition group (i : nat) (m : match_object) : option text :=
  lookup i (m_groups m).

(** [group1] is [m.group(1)] for a group that took part in the match. *)
Definition group1 (m : match_object) : text :=
  match group 1 m with Some w => w | None => [] end.

Definition accept (must_advance : bool) (b : text) : cont match_object :=
  fun b' a' g' =>
    if must_advance && (length b' =? length b)
    then None
    else Some (MatchObject (rev b) (consumed b b') a' g').

(** One attempt at position [(b, a)].  With [must_advance] an empty
    match is refused. *)
Definition match_at (r : regex) (must_advance : bool) (b a : text)
  : option match_object :=
  run r b a [] (accept must_advance b).

(** The attempts of [re.search], one position after the other. *)
Fixpoint search_from (r : regex) (b a : text) {struct a}
  : option match_object :=
  match match_at r false b a with
  | Some m => Some m
  | None =>
      match a with
      | [] => None
      | c :: a' => search_from r (c :: b) a'
      end
  end.

(** [re.search(r, s)] *)
Definition search (r : regex) (s : text) : option match_object :=
  search_from r [] s.

(** The scan of [re.findall] and [re.finditer]: successive searches,
    each starting where the previous match ended; after an empty match
    the next one may start at the same place but must not be empty.
    [skip] counts the characters of the previous match still to pass. *)
Fixpoint scan (r : regex) (skip : nat) (b a : text) {struct a}
  : list match_object :=
  match skip, a with
  | S n, c :: a' => scan r n (c :: b) a'
  | S _, [] => []
  | O, _ =>
      let next (n : nat) :=
        match a with
        | c :: a' => scan r n (c :: b) a'
        | [] => []
        end in
      match match_at r false b a with
      | Some m =>
          match length (m_group0 m) with
          | S n => m :: next n
          | O =>
              m :: match match_at r true b a with
                   | Some m' => m' :: next (pred (length (m_group0 m')))
                   | None => next 0
                   end
          end
      | None => next 0
      end
  end.

(** [re.findall(r, s)] for a pattern with exactly one group. *)
Definition findall (r : regex) (s : text) : list text :=
  map group1 (scan r 0 [] s).

(** *** What a match is

    [matches r b a g b' a' g']: the pattern [r] can take the subject
    from position [(b, a)] to position [(b', a')], and the groups from
    [g] to [g'].  The relation says which matches exist; the order in
    which [run] finds them is the engine's business. *)
Inductive matches
  : regex -> text -> text -> groups -> text -> text -> groups -> Prop :=
| M_Eps : forall b a g, matches Eps b a g b a g
| M_Class : forall (p : ascii -> bool) c b a g,
    p c = true -> matches (Class p) b (c :: a) g (c :: b) a g
| M_Seq : forall r1 r2 b a g b1 a1 g1 b2 a2 g2,
    matches r1 b a g b1 a1 g1 -> matches r2 b1 a1 g1 b2 a2 g2 ->
    matches (Seq r1 r2) b a g b2 a2 g2
| M_AltL : forall r1 r2 b a g b' a' g',
    matches r1 b a g b' a' g' -> matches (Alt r1 r2) b a g b' a' g'
| M_AltR : forall r1 r2 b a g b' a' g',
    matches r2 b a g b' a' g' -> matches (Alt r1 r2) b a g b' a' g'
| M_Repeat : forall (p : ascii -> bool) lo hi w b a g,
    Forall (fun c => p c = true) w -> lo <= length w -> within hi (length w) ->
    matches (Repeat p lo hi) b (w ++ a) g (rev w ++ b) a g
| M_OptSome : forall r b a g b' a' g',
    matches r b a g b' a' g' -> matches (Opt r) b a g b' a' g'
| M_OptNone : forall r b a g, matches (Opt r) b a g b a g
| M_WordB : forall b a g, at_boundary b a = true -> matches WordB b a g b a g
| M_Group : forall i r b a g b' a' g',
    matches r b a g b' a' g' ->
    matches (Group i r) b a g b' a' ((i, consumed b b') :: g').

(** [occurs r pre w post g]: in the subject [pre ++ w ++ post], the
    pattern matches the substring [w] that starts after [pre], with
    groups [g]. *)
Definition occurs (r : regex) (pre w post : text) (g : groups) : Prop :=
  matches r (rev pre) (w ++ post) [] (rev w ++ rev pre) post g.

(** [found r s]: the pattern matches somewhere in [s]. *)
Definition found (r : regex) (s : text) : Prop :=
  exists pre w post g, s = pre ++ w ++ post /\ occurs r pre w post g.

End Re.

(* ================================================================= *)
(** ** [float] of a decimal literal, and [max] with a key *)

Module PyFloat.
Import PyStr.
Local Open Scope Z_scope.

Definition digit_value (c : ascii) : Z := Z.of_N (code c) - 48.

(** [int] of a string of digits. *)
Definition digits_value (s : text) : Z :=
  fold_left (fun acc c => 10 * acc + digit_value c) s 0.

(** The digits before and after the first period. *)
Fixpoint split_point (s : text) : text * text :=
  match s with
  | [] => ([], [])
  | c :: s' =>
      if is_char "." c then ([], s')
      else let (i, f) := split_point s' in (c :: i, f)
  end.

(** The exact value of a literal [digits] or [digits.digits], as a
    numerator and a denominator. *)
Definition decimal (s : text) : Z * Z :=
  let (i, f) := split_point s in
  (digits_value (i ++ f), 10 ^ Z.of_nat (length f)).

(** The integer nearest to [n / d], ties to the even one ([0 < d]). *)
Definition round_half_even (n d : Z) : Z :=
  let q := n / d in
  match 2 * (n mod d) ?= d with
  | Lt => q
  | Gt => q + 1
  | Eq => if Z.even q then q else q + 1
  end.

(** [d * 2^l <= n], for an exponent [l] of either sign. *)
Definition scaled_le (d l n : Z) : bool :=
  if 0 <=? l then d * 2 ^ l <=? n else d <=? n * 2 ^ (- l).

(** The [l] with [2^l <= n / d < 2^(l+1)], for positive [n] and [d]. *)
Definition binade (n d : Z) : Z :=
  let l := Z.log2 n - Z.log2 d in
  if scaled_le d l n then l else l - 1.

(** A double is represented by its value in units of [2^-1074], the
    smallest positive double: every finite double is a whole number of
    them.  Infinity is represented by [2^1024] in the same unit, above
    every finite double. *)
Definition infinity : Z := 2 ^ (1024 + 1074).

(** The double nearest to [n / d] (round to nearest, ties to even; 53
    significant bits; overflow to infinity), for [0 <= n] and [0 < d].
    This is what [float] returns for a decimal literal of value
    [n / d]. *)
Definition binary64 (n d : Z) : Z :=
  if n =? 0 then 0
  else
    let e := Z.max (binade n d - 52) (-1074) in
    let m := if 0 <=? e then round_half_even n (d * 2 ^ e)
             else round_half_even (n * 2 ^ (- e)) d in
    let v := m * 2 ^ (e + 1074) in
    if v <? infinity then v else infinity.

(** [float(s)] for a literal [digits] or [digits.digits]. *)
Definition float (s : text) : Z :=
  let (n, d) := decimal s in binary64 n d.

(** The loop of [max(iterable, key=...)]: a later item replaces the
    current one only when its key is strictly greater. *)
Fixpoint max_from (A : Type) (key : A -> Z) (best : A) (l : list A) : A :=
  match l with
  | [] => best
  | x :: l' => if key x >? key best then max_from key x l' else max_from key best l'
  end.

(** [max(l, key=key)] of a non-empty list. *)
Definition max_by (A : Type) (key : A -> Z) (l : list A) : option A :=
  match l with
  | [] => None
  | x :: l' => Some (max_from key x l')
  end.

End PyFloat.

(* ================================================================= *)
(** ** Field extraction *)

Module Fields.
Import PyStr Re.

(** [[./-]] *)
Definition is_separator (c : ascii) : bool :=
  is_char "." c || is_char "/" c || is_char "-" c.

(** [\d{1,2}[./-]\d{1,2}[./-]\d{2,4}] *)
Definition numeric_date : regex :=
  seq [Times is_digit 1 2; Class is_separator;
       Times is_digit 1 2; Class is_separator;
       Times is_digit 2 4].

Definition month_names : regex :=
  alt (map Lit ["january"; "february"; "march"; "april"; "may"; "june";
                "july"; "august"; "september"; "october"; "november";
                "december"]%string).

(** [(january|...|december)\s+\d{1,2}(,\s*\d{4})?] *)
Definition textual_date : regex :=
  seq [Group 1 month_names; Plus is_space; Times is_digit 1 2;
       Opt (Group 2 (seq [Class (is_char ","); Star is_space;
                          Times is_digit 4 4]))].

Definition extract_date (text : text) : option PyStr.text :=
  match search numeric_date text with
  | Some numeric => Some (m_group0 numeric)
  | None =>
      let text_lower := lower text in
      match search textual_date text_lower with
      | Some textual => Some (title (m_group0 textual))
      | None => None
      end
  end.

(** [[^0-9$]] *)
Definition not_digit_or_dollar (c : ascii) : bool :=
  negb (is_digit c || is_char "$" c).

(** [([0-9]+(\.[0-9]{2})?)] *)
Definition amount : regex :=
  Group 1 (Seq (Plus is_digit)
               (Opt (Group 2 (Seq (Class (is_char ".")) (Times is_digit 2 2))))).

(** [{pattern}[^0-9$]*\$?\s*([0-9]+(\.[0-9]{2})?)] *)
Definition anchored (pattern : regex) : regex :=
  seq [pattern; Star not_digit_or_dollar; Opt (Class (is_char "$"));
       Star is_space; amount].

Definition total_patterns : list regex :=
  [ seq [WordB; Lit "total"; WordB];
    seq [WordB; Lit "grand"; Plus is_space; Lit "total"; WordB];
    seq [WordB; Lit "amount"; Plus is_space; Lit "due"; WordB];
    seq [WordB; Lit "balance"; Plus is_space; Lit "due"; WordB];
    seq [WordB; Lit "invoice"; Plus is_space; Lit "total"; WordB] ].

Definition subtotal_patterns : list regex :=
  [ seq [WordB; Lit "subtotal"; WordB];
    seq [WordB; Lit "sub"; Plus is_space; Lit "total"; WordB] ].

(** [\$?\s*([0-9]+\.[0-9]{2})] *)
Definition decimal_number : regex :=
  seq [Opt (Class (is_char "$")); Star is_space;
       Group 1 (seq [Plus is_digit; Class (is_char "."); Times is_digit 2 2])].

(** The loop [for pattern in patterns: ... if match: return match.group(1)]. *)
Fixpoint first_anchored (patterns : list regex) (text : text) : option PyStr.text :=
  match patterns with
  | [] => None
  | pattern :: rest =>
      match search (anchored pattern) text with
      | Some m => Some (group1 m)
      | None => first_anchored rest text
      end
  end.

(** [text.lower().replace(",", ".")] *)
Definition normalize (text : text) : PyStr.text :=
  replace "," "." (lower text).

Definition extract_total (text : text) : option PyStr.text :=
  let text := normalize text in
  match first_anchored total_patterns text with
  | Some total => Some total
  | None =>
      match first_anchored subtotal_patterns text with
      | Some total => Some total
      | None =>
          let numbers := findall decimal_number text in
          match numbers with
          | [] => None
          | _ :: _ => PyFloat.max_by PyFloat.float numbers
          end
      end
  end.

(** *** The forms of the results, as the specification words them *)

(** One or more digits. *)
Definition is_digits (s : text) : bool :=
  match s with
  | [] => false
  | _ :: _ => forallb is_digit s
  end.

(** [digits.DD]: one or more digits, a period, exactly two digits. *)
Definition is_decimal (s : text) : bool :=
  match rev s with
  | d2 :: d1 :: p :: ds =>
      is_digit d2 && is_digit d1 && is_char "." p && is_digits (rev ds)
  | _ => false
  end.


(** The numeric date as the code matches it: the two separators are
    chosen independently and the year has 2 to 4 digits. *)
Definition is_numeric_date (s : text) : Prop :=
  exists d1 s1 d2 s2 y,
    s = d1 ++ s1 :: d2 ++ s2 :: y /\
    Forall (fun c => is_digit c = true) (d1 ++ d2 ++ y) /\
    1 <= length d1 <= 2 /\ 1 <= length d2 <= 2 /\ 2 <= length y <= 4 /\
    is_separator s1 = true /\ is_separator s2 = true.

(** [contains_numeric_date t]: some substring of [t] is a numeric date. *)
Definition contains_numeric_date (t : text) : Prop :=
  exists pre d post, t = pre ++ d ++ post /\ is_numeric_date d.



(** [keyword_found patterns t]: one of the keywords is followed by an
    amount somewhere in [t]. *)
Definition keyword_found (patterns : list regex) (t : text) : Prop :=
  exists p, In p patterns /\ found (anchored p) t.

(** [tier_number patterns t n]: [n] is what group 1 holds in the match
    [re.search] returns for the first pattern of the list, in the order
    of the list, that matches anywhere in [t]. *)
Definition tier_number (patterns : list regex) (t n : text) : Prop :=
  exists before kw after m,
    patterns = before ++ kw :: after /\
    (forall q, In q before -> ~ found (anchored q) t) /\
    search (anchored kw) t = Some m /\ group 1 m = Some n.

End Fields.

(* ================================================================= *)
(** ** Image preprocessing *)

Module Preprocess.
Local Open Scope Z_scope.

(** A decoded image: rows of pixels, a pixel being its channel samples
    (three for the BGR image [cv2.imread] returns, one for a grayscale
    image), each sample an 8-bit value. *)
Definition image := list (list (list Z)).

(** [cvRound]: the nearest integer, ties to the even one. *)
Definition cvRound (x : Q) : Z :=
  PyFloat.round_half_even (Qnum x) (Zpos (Qden x)).

(** [saturate_cast<uchar>] of an integer. *)
Definition saturate_uchar (v : Z) : Z :=
  if v <? 0 then 0 else if 255 <? v then 255 else v.

(** One sample of [cv2.convertScaleAbs(src, alpha, beta)]:
    [saturate_cast<uchar>(|src * alpha + beta|)].  The arithmetic is
    exact here; OpenCV evaluates it in single precision. *)
Definition scale_abs (alpha : Q) (beta : Z) (p : Z) : Z :=
  saturate_uchar (cvRound (Qabs (inject_Z p * alpha + inject_Z beta))).

Definition convertScaleAbs (alpha : Q) (beta : Z) (src : image) : image :=
  map (map (map (scale_abs alpha beta))) src.


Section Chain.

(** The file behind [image_path] and the OpenCV operations the chain
    calls but whose pixels no claim depends on. *)
Variable file : Type.
Variable imread : file -> option image.
Variable GaussianBlur : Z * Z -> Z -> image -> image.
Variable cvtColor_BGR2GRAY : image -> image.
Variable clahe_apply : image -> image.

(** The smoothing step on the adjusted image. *)
Definition smooth (blur : Z) (adjusted : image) : image :=
  if blur >? 0 then
    let ksize := blur * 2 + 1 in
    GaussianBlur (ksize, ksize) 0 adjusted
  else adjusted.

Definition preprocess_image (image_path : file) (contrast : Q)
    (brightness blur : Z) : option image :=
  match imread image_path with
  | None => None
  | Some image =>
      let adjusted := convertScaleAbs contrast brightness image in
      let adjusted := smooth blur adjusted in
      let gray := cvtColor_BGR2GRAY adjusted in
      let denoised := GaussianBlur (5, 5) 0 gray in
      let enhanced := clahe_apply denoised in
      Some enhanced
  end.

End Chain.

End Preprocess.

(* ================================================================= *)
(** ** The invoice store *)

Module Store.
Import PyStr.

(** A parsed JSON document. *)
#[local] Unset Elimination Schemes.
Inductive json : Type :=
| JNull
| JBool (b : bool)
| JNumber (literal : text)
| JString (s : text)
| JArray (items : list json)
| JObject (members : list (text * json)).
#[local] Set Elimination Schemes.

(** What a call does: it returns a value or raises an exception. *)
Variant outcome (A : Type) : Type :=
| Return (value : A)
| Raise (exception : string).

Arguments Raise {A} exception.

Section Store.

(** The text of the data file, with [json.load], which raises on text
    that is not JSON, and [json.dump]. *)
Variable content : Type.
Variable json_load : content -> outcome json.
Variable json_dump : json -> content.

(** The state of [DATA_FILE]: absent, or present with its content. *)
Definition data_file := option content.

Definition load_saved_data (f : data_file) : outcome json :=
  match f with
  | None => Return (JArray [])
  | Some c =>
      match json_load c with
      | Return data => Return data
      | Raise _ => Return (JArray [])
      end
  end.

(** [save_invoice_data]: the new state of the file; [data.extend]
    raises when the loaded document is not a list.  The directory of
    the file is taken to exist and to be writable. *)
Definition save_invoice_data (new_entries : list json) (f : data_file)
  : outcome data_file :=
  match load_saved_data f with
  | Return (JArray data) =>
      Return (Some (json_dump (JArray (data ++ new_entries))))
  | Return _ => Raise "AttributeError"
  | Raise e => Raise e
  end.

(** Successive calls of [save_invoice_data], one per batch. *)
Fixpoint save_all (batches : list (list json)) (f : data_file)
  : outcome data_file :=
  match batches with
  | [] => Return f
  | new_entries :: rest =>
      match save_invoice_data new_entries f with
      | Return f' => save_all rest f'
      | Raise e => Raise e
      end
  end.

End Store.

(** A codec for which [json.load] inverts [json.dump]: the content is
    either a document or text that does not parse. *)
Definition sample_content := option json.
Definition sample_load (c : sample_content) : outcome json :=
  match c with
  | Some v => Return v
  | None => Raise "JSONDecodeError"
  end.
Definition sample_dump (v : json) : sample_content := Some v.

End Store.

(* ================================================================= *)
(** ** The [/analyze] route *)

Module Analyze.
Import PyStr Store.

Section Analyze.

Variable file : Type.
Variable imread : file -> option Preprocess.image.
Variable GaussianBlur : Z * Z -> Z -> Preprocess.image -> Preprocess.image.
Variable cvtColor_BGR2GRAY : Preprocess.image -> Preprocess.image.
Variable clahe_apply : Preprocess.image -> Preprocess.image.

(** [pytesseract.image_to_string] *)
Variable image_to_string : Preprocess.image -> text.

Variable content : Type.
Variable json_load : content -> outcome json.
Variable json_dump : json -> content.

(** An uploaded file: its name and what [img.save] writes. *)
Record upload : Type := Upload { filename : text; saved : file }.

Definition extract_text (image : Preprocess.image) : text :=
  image_to_string image.

Definition key (s : string) : text := of_string s.

(** The body of the loop for one image: the record it appends, if any.
    The temporary file and the debug print leave no trace in the
    results. *)
Definition analyze_image (contrast : Q) (brightness blur : Z) (img : upload)
  : option json :=
  match Preprocess.preprocess_image imread GaussianBlur cvtColor_BGR2GRAY
          clahe_apply (saved img) contrast brightness blur with
  | None => None
  | Some processed =>
      let text := extract_text processed in
      let date := Fields.extract_date text in
      let total := Fields.extract_total text in
      match date, total with
      | Some d, Some t =>
          if truthy date && truthy total then
            Some (JObject [(key "filename", JString (filename img));
                           (key "date", JString d);
                           (key "total", JString t);
                           (key "note", JString (strip text))])
          else None
      | _, _ => None
      end
  end.

(** [for img in images: ...], with [results] as accumulated so far. *)
Fixpoint analyze_loop (contrast : Q) (brightness blur : Z)
    (images : list upload) (results : list json) : list json :=
  match images with
  | [] => results
  | img :: rest =>
      match analyze_image contrast brightness blur img with
      | Some entry => analyze_loop contrast brightness blur rest (results ++ [entry])
      | None => analyze_loop contrast brightness blur rest results
      end
  end.

(** The records of the images that yield one, in the order of the
    images. *)
Definition records_of (contrast : Q) (brightness blur : Z)
    (images : list upload) : list json :=
  flat_map (fun img => match analyze_image contrast brightness blur img with
                       | Some entry => [entry]
                       | None => []
                       end) images.

(** The route: the JSON array it answers with and the state of the
    data file afterwards, unless saving raises. *)
Definition analyze_invoice (contrast : Q) (brightness blur : Z)
    (images : list upload) (f : data_file content)
  : outcome (list json * data_file content) :=
  let results := analyze_loop contrast brightness blur images [] in
  match results with
  | [] => Return (results, f)
  | _ :: _ =>
      match save_invoice_data json_load json_dump results f with
      | Return f' => Return (results, f')
      | Raise e => Raise e
      end
  end.

End Analyze.

(** A concrete instance: a file is an image or undecodable bytes, the
    OpenCV steps after the first are the identity, and the OCR engine
    reads the same two lines off every image. *)
Definition sample_imread (f : option Preprocess.image) : option Preprocess.image := f.
Definition sample_blur (ksize : Z * Z) (sigma : Z) (src : Preprocess.image)
  : Preprocess.image := src.
Definition sample_step (src : Preprocess.image) : Preprocess.image := src.
Definition sample_ocr (src : Preprocess.image) : text :=
  of_string "Invoice date 03/14/2024 Total Due: $45.50".
Definition sample_good (name : string) : upload (option Preprocess.image) :=
  Upload (of_string name) (Some [[[200; 200; 200]%Z]]).

End Analyze.

(* ================================================================= *)
(** ** Form parameters of the routes *)

Module Params.
Import PyStr Store.

(** A Python float: a finite value, an infinity or a NaN. *)
Variant pyfloat : Type :=
| Finite (q : Q)
| Infinite (negative : bool)
| NaN.

(** [request.form]: the fields of the form, in the order received. *)
Definition form := list (string * text).

(** [request.form.get(key)]: the first value of the key, if any. *)
Fixpoint form_get (key : string) (f : form) : option text :=
  match f with
  | [] => None
  | (k, v) :: f' => if String.eqb k key then Some v else form_get key f'
  end.

(** [int(x)] of a float: the value cut toward zero; an infinity and a
    NaN cannot be converted. *)
Definition int_of_float (x : pyfloat) : outcome Z :=
  match x with
  | Finite q => Return (Z.quot (Qnum q) (Zpos (Qden q)))
  | Infinite _ => Raise "OverflowError"
  | NaN => Raise "ValueError"
  end.

Section Params.

(** [float(s)] of a string; [None] when it raises [ValueError]. *)
Variable float_of_str : text -> option pyfloat.

(** [float(request.form.get(key, default))] with a numeric default. *)
Definition float_field (key : string) (default : Q) (f : form) : outcome pyfloat :=
  match form_get key f with
  | Some s =>
      match float_of_str s with
      | Some x => Return x
      | None => Raise "ValueError"
      end
  | None => Return (Finite default)
  end.

(** [int(float(request.form.get(key, default)))] *)
Definition int_field (key : string) (default : Q) (f : form) : outcome Z :=
  match float_field key default f with
  | Return x => int_of_float x
  | Raise e => Raise e
  end.

(** The three assignments inside [try], in their order. *)
Definition read_params (f : form) : outcome (pyfloat * Z * Z) :=
  match float_field "contrast" 1 f with
  | Raise e => Raise e
  | Return contrast =>
      match int_field "brightness" 0 f with
      | Raise e => Raise e
      | Return brightness =>
          match int_field "blur" 0 f with
          | Raise e => Raise e
          | Return blur => Return (contrast, brightness, blur)
          end
      end
  end.

(** [/analyze]: [except ValueError] puts the defaults in place. *)
Definition analyze_params (f : form) : outcome (pyfloat * Z * Z) :=
  match read_params f with
  | Return p => Return p
  | Raise e =>
      if String.eqb e "ValueError" then Return (Finite 1, 0%Z, 0%Z) else Raise e
  end.

(** [/preview]: [except ValueError] answers 400, here [None]. *)
Definition preview_params (f : form) : outcome (option (pyfloat * Z * Z)) :=
  match read_params f with
  | Return p => Return (Some p)
  | Raise e => if String.eqb e "ValueError" then Return None else Raise e
  end.

End Params.

(** A parser for a few spellings, enough to run the definitions. *)
Definition sample_float (s : text) : option pyfloat :=
  let s := to_string s in
  if String.eqb s "2.5" then Some (Finite (5 # 2))
  else if String.eqb s "-0.9" then Some (Finite (- 9 # 10))
  else if String.eqb s "40" then Some (Finite 40)
  else if String.eqb s "inf" then Some (Infinite false)
  else if String.eqb s "nan" then Some NaN
  else None.

End Params.

(* ================================================================= *)
(** ** Notions the properties are stated with *)

Module Notions.
Import PyStr Re Fields Preprocess Store.

(** *** Keywords of [extract_total] *)

(** The keyword [total] on its own, the first of [total_patterns]. *)
Definition total_keyword : regex := seq [WordB; Lit "total"; WordB].

(** A keyword of two words whose second word is [total]. *)
Definition qualified_total (qualifier : string) : regex :=
  seq [WordB; Lit qualifier; Plus is_space; Lit "total"; WordB].

(** *** Textual dates *)

(** The month names of [extract_date], as they are spelled in the
    lower-cased text. *)
Definition months : list string :=
  ["january"; "february"; "march"; "april"; "may"; "june";
   "july"; "august"; "september"; "october"; "november"; "december"]%string.

Definition is_textual_date (s : text) : Prop :=
  exists month ws day suffix,
    In month months /\ s = of_string month ++ ws ++ day ++ suffix /\
    1 <= length ws /\ Forall (fun c => is_space c = true) ws /\
    1 <= length day <= 2 /\ Forall (fun c => is_digit c = true) day /\
    (suffix = [] \/
     exists ws' year,
       suffix = ","%char :: ws' ++ year /\
       Forall (fun c => is_space c = true) ws' /\
       length year = 4 /\ Forall (fun c => is_digit c = true) year).

Definition contains_textual_date (t : text) : Prop :=
  exists pre d post, t = pre ++ d ++ post /\ is_textual_date d.

(** *** White space at the head of a string *)

Definition starts_with_space (s : text) : bool :=
  match s with c :: _ => is_space c | [] => false end.

(** *** Images of 8-bit samples *)

Definition is_uchar (p : Z) : Prop := (0 <= p <= 255)%Z.

Definition is_8bit (src : image) : Prop := Forall (Forall (Forall is_uchar)) src.


(** *** JSON lists *)

Definition is_array (v : json) : bool :=
  match v with JArray _ => true | _ => false end.

End Notions.

(* ================================================================= *)
(** * Properties *)

Unset Implicit Arguments.

(** ** The matcher against the matching relation *)

Module ReFacts.
Import PyStr Re.

Lemma consumed_app (w b : text) : consumed b (rev w ++ b) = w.
Proof.
  unfold consumed.
  rewrite length_app, length_rev, Nat.add_sub.
  rewrite <- (length_rev w), firstn_app, Nat.sub_diag, firstn_all.
  simpl. rewrite app_nil_r. apply rev_involutive.
Qed.

(** A match moves forward over a piece [w] of the subject. *)
Lemma matches_span r b a g b' a' g' :
  matches r b a g b' a' g' -> exists w, a = w ++ a' /\ b' = rev w ++ b.
Proof.
  induction 1.
  - exists []; auto.
  - exists [c]; auto.
  - destruct IHmatches1 as (w1 & -> & ->), IHmatches2 as (w2 & -> & ->).
    exists (w1 ++ w2). rewrite rev_app_distr, <- !app_assoc. auto.
  - assumption.
  - assumption.
  - exists w; auto.
  - assumption.
  - exists []; auto.
  - exists []; auto.
  - assumption.
Qed.

Lemma rep_sound (A : Type) (p : ascii -> bool) (k : cont A) g x :
  forall a lo hi b,
    rep p lo hi b a g k = Some x ->
    exists w a', a = w ++ a' /\ Forall (fun c => p c = true) w /\
                 lo <= length w /\ within hi (length w) /\
                 k (rev w ++ b) a' g = Some x.
Proof.
  assert (Hstop : forall lo hi b a,
             within hi 0 ->
             match lo with O => k b a g | S _ => None end = Some x ->
             exists w a', a = w ++ a' /\ Forall (fun c => p c = true) w /\
                          lo <= length w /\ within hi (length w) /\
                          k (rev w ++ b) a' g = Some x).
  { intros lo hi b a Hhi H. destruct lo; [|discriminate].
    exists [], a. simpl. auto. }
  assert (H0 : forall hi, within hi 0) by (destruct hi; simpl; auto with arith).
  induction a as [|c a IH]; intros lo hi b H.
  - destruct hi as [[|h]|]; simpl in H; apply Hstop; auto.
  - simpl in H. destruct hi as [[|h]|].
    + apply Hstop; auto.
    + destruct (p c) eqn:Hc; [|apply Hstop; auto].
      destruct (rep p (pred lo) (option_map pred (Some (S h))) (c :: b) a g k) eqn:Hr;
        [|apply Hstop; auto].
      injection H as ->. apply IH in Hr.
      destruct Hr as (w & a' & -> & Hw & Hlo & Hhi & Hk).
      exists (c :: w), a'. simpl in *. rewrite <- app_assoc. simpl.
      repeat split; auto with arith. lia.
    + destruct (p c) eqn:Hc; [|apply Hstop; auto].
      destruct (rep p (pred lo) (option_map pred None) (c :: b) a g k) eqn:Hr;
        [|apply Hstop; auto].
      injection H as ->. apply IH in Hr.
      destruct Hr as (w & a' & -> & Hw & Hlo & Hhi & Hk).
      exists (c :: w), a'. simpl in *. rewrite <- app_assoc. simpl.
      repeat split; auto. lia.
Qed.

Lemma rep_complete (A : Type) (p : ascii -> bool) (k : cont A) g :
  forall a lo hi b,
    rep p lo hi b a g k = None ->
    forall w a', a = w ++ a' -> Forall (fun c => p c = true) w ->
                 lo <= length w -> within hi (length w) ->
                 k (rev w ++ b) a' g = None.
Proof.
  induction a as [|c a IH]; intros lo hi b H w a' Ha Hw Hlo Hhi.
  - destruct w; [|discriminate]. simpl in *. subst a'.
    destruct lo; [|lia]. destruct hi as [[|h]|]; exact H.
  - destruct w as [|c' w].
    + simpl in Ha. subst a'. destruct lo; [|simpl in Hlo; lia].
      simpl in H. destruct hi as [[|h]|]; auto;
        destruct (p c); auto;
        match type of H with
        | match ?r with _ => _ end = _ => destruct r; [discriminate|auto]
        end.
    + injection Ha as <- ->. inversion Hw as [|? ? Hc Hw']; subst.
      simpl in Hlo. simpl.
      rewrite <- app_assoc. simpl.
      simpl in H. rewrite Hc in H.
      destruct hi as [[|h]|]; simpl in Hhi; [lia| |].
      * destruct (rep p (pred lo) (option_map pred (Some (S h))) (c :: b) (w ++ a') g k) eqn:Hr;
          [discriminate|].
        eapply IH; eauto; simpl; lia.
      * destruct (rep p (pred lo) (option_map pred None) (c :: b) (w ++ a') g k) eqn:Hr;
          [discriminate|].
        eapply IH; eauto; simpl; auto; lia.
Qed.

(** Soundness: a result of the matcher comes from a match of the
    pattern followed by a success of the continuation. *)
Lemma run_sound (A : Type) r :
  forall b a g (k : cont A) x,
    run r b a g k = Some x ->
    exists b' a' g', matches r b a g b' a' g' /\ k b' a' g' = Some x.
Proof.
  induction r as [|p|r1 IH1 r2 IH2|r1 IH1 r2 IH2|p lo hi|r1 IH1| |i r1 IH1];
    intros b a g k x H; simpl in *.
  - exists b, a, g. split; [constructor|auto].
  - destruct a as [|c a]; [discriminate|].
    destruct (p c) eqn:Hp; [|discriminate].
    exists (c :: b), a, g. split; [constructor; auto|auto].
  - apply IH1 in H. destruct H as (b1 & a1 & g1 & Hm1 & H).
    apply IH2 in H. destruct H as (b2 & a2 & g2 & Hm2 & H).
    exists b2, a2, g2. split; [econstructor; eauto|auto].
  - destruct (run r1 b a g k) eqn:H1.
    + injection H as ->. apply IH1 in H1.
      destruct H1 as (b' & a' & g' & Hm & H).
      exists b', a', g'. split; [apply M_AltL; auto|auto].
    + apply IH2 in H.
      destruct H as (b' & a' & g' & Hm & H).
      exists b', a', g'. split; [apply M_AltR; auto|auto].
  - apply rep_sound in H. destruct H as (w & a' & -> & Hw & Hlo & Hhi & H).
    exists (rev w ++ b), a', g. split; [constructor; auto|auto].
  - destruct (run r1 b a g k) eqn:H1.
    + injection H as ->. apply IH1 in H1.
      destruct H1 as (b' & a' & g' & Hm & H).
      exists b', a', g'. split; [apply M_OptSome; auto|auto].
    + exists b, a, g. split; [apply M_OptNone|auto].
  - destruct (at_boundary b a) eqn:Hb; [|discriminate].
    exists b, a, g. split; [constructor; auto|auto].
  - apply IH1 in H. destruct H as (b' & a' & g' & Hm & H).
    exists b', a', ((i, consumed b b') :: g').
    split; [constructor; auto|auto].
Qed.

(** Completeness: when the matcher fails, the continuation fails after
    every match of the pattern. *)
Lemma run_complete (A : Type) r :
  forall b a g (k : cont A),
    run r b a g k = None ->
    forall b' a' g', matches r b a g b' a' g' -> k b' a' g' = None.
Proof.
  induction r as [|p|r1 IH1 r2 IH2|r1 IH1 r2 IH2|p lo hi|r1 IH1| |i r1 IH1];
    intros b a g k H b' a' g' Hm; inversion Hm; subst; simpl in H.
  - auto.
  - match goal with Hp : p _ = true |- _ => rewrite Hp in H end. auto.
  - match goal with
    | H1 : matches r1 _ _ _ _ _ _ |- _ => pose proof (IH1 _ _ _ _ H _ _ _ H1) as Hk
    end.
    match goal with
    | H2 : matches r2 _ _ _ _ _ _ |- _ => exact (IH2 _ _ _ _ Hk _ _ _ H2)
    end.
  - destruct (run r1 b a g k) eqn:Hr1; [discriminate|]. eapply IH1; eauto.
  - destruct (run r1 b a g k) eqn:Hr1; [discriminate|]. eapply IH2; eauto.
  - eapply rep_complete; eauto.
  - destruct (run r1 b a g k) eqn:Hr1; [discriminate|]. eapply IH1; eauto.
  - destruct (run r1 b' a' g' k) eqn:Hr1; [discriminate|]. auto.
  - match goal with Hb : at_boundary _ _ = true |- _ => rewrite Hb in H end. auto.
  - match goal with
    | H1 : matches r1 _ _ _ _ _ _ |- _ => exact (IH1 _ _ _ _ H _ _ _ H1)
    end.
Qed.

Lemma match_at_sound r must_advance b a m :
  match_at r must_advance b a = Some m ->
  exists w, a = w ++ m_post m /\
            matches r b a [] (rev w ++ b) (m_post m) (m_groups m) /\
            m_pre m = rev b /\ m_group0 m = w /\
            (must_advance = true -> w <> []).
Proof.
  unfold match_at. intros H. apply run_sound in H.
  destruct H as (b' & a' & g' & Hm & H). unfold accept in H.
  destruct (must_advance && (length b' =? length b)) eqn:E; [discriminate|].
  injection H as <-. simpl.
  destruct (matches_span _ _ _ _ _ _ _ Hm) as (w & -> & ->). exists w.
  rewrite consumed_app. repeat split; auto.
  intros -> ->. simpl in E. rewrite Nat.eqb_refl in E. discriminate.
Qed.

Lemma match_at_none r b a :
  match_at r false b a = None ->
  forall b' a' g', ~ matches r b a [] b' a' g'.
Proof.
  intros H b' a' g' Hm.
  pose proof (run_complete _ _ _ _ _ _ H _ _ _ Hm) as Hk. discriminate.
Qed.

Lemma match_at_some r b a b' a' g' :
  matches r b a [] b' a' g' -> exists m, match_at r false b a = Some m.
Proof.
  intros Hm. destruct (match_at r false b a) eqn:E; [eauto|].
  exfalso. eapply match_at_none; eauto.
Qed.

Lemma search_from_sound r :
  forall a b m,
    search_from r b a = Some m ->
    exists skipped w,
      a = skipped ++ w ++ m_post m /\
      matches r (rev skipped ++ b) (w ++ m_post m) []
              (rev w ++ rev skipped ++ b) (m_post m) (m_groups m) /\
      m_pre m = rev b ++ skipped /\ m_group0 m = w /\
      (forall s1 c s2, skipped = s1 ++ c :: s2 ->
         forall b' a' g',
           ~ matches r (rev s1 ++ b) (c :: s2 ++ w ++ m_post m) [] b' a' g').
Proof.
  induction a as [|c a IH]; intros b m H; simpl in H.
  - destruct (match_at r false b []) eqn:E; [|discriminate].
    injection H as ->. apply match_at_sound in E.
    destruct E as (w & Ha & Hm & Hpre & Hw & _).
    exists [], w. simpl. rewrite app_nil_r. rewrite <- Ha. repeat split; auto.
    intros s1 c s2 Hs. destruct s1; discriminate.
  - destruct (match_at r false b (c :: a)) eqn:E.
    + injection H as ->. apply match_at_sound in E.
      destruct E as (w & Ha & Hm & Hpre & Hw & _).
      exists [], w. simpl. rewrite app_nil_r. rewrite <- Ha. repeat split; auto.
      intros s1 c' s2 Hs. destruct s1; discriminate.
    + apply IH in H. destruct H as (sk & w & Ha & Hm & Hpre & Hw & Hleft).
      exists (c :: sk), w. simpl. rewrite <- !app_assoc. simpl.
      repeat split; auto.
      * congruence.
      * rewrite Hpre. simpl. rewrite <- app_assoc. reflexivity.
      * intros s1 c' s2 Hs b' a' g'. destruct s1 as [|c1 s1]; simpl in *.
        -- injection Hs as <- ->. rewrite <- Ha. eapply match_at_none; eauto.
        -- injection Hs as <- ->. rewrite <- app_assoc. simpl. eapply Hleft; eauto.
Qed.

Lemma search_from_none r :
  forall a b,
    search_from r b a = None ->
    forall s1 s2, a = s1 ++ s2 ->
                  forall b' a' g', ~ matches r (rev s1 ++ b) s2 [] b' a' g'.
Proof.
  induction a as [|c a IH]; intros b H s1 s2 Ha b' a' g'; simpl in H;
    destruct (match_at r false b _) eqn:E; try discriminate.
  - destruct s1; [|discriminate]. simpl in *. subst s2.
    eapply match_at_none; eauto.
  - destruct s1 as [|c1 s1]; simpl in *.
    + subst s2. eapply match_at_none; eauto.
    + injection Ha as <- ->. rewrite <- app_assoc. simpl. eapply IH; eauto.
Qed.

Lemma app_eq_shorter (A : Type) (u x y v : list A) :
  x ++ y = u ++ v -> length u < length x ->
  exists c z, x = u ++ c :: z /\ v = c :: z ++ y.
Proof.
  revert x. induction u as [|d u IH]; intros x H Hlen.
  - destruct x as [|c z]; [simpl in Hlen; lia|]. exists c, z. simpl in *. auto.
  - destruct x as [|c z]; [simpl in Hlen; lia|]. simpl in *.
    injection H as -> H. apply IH in H; [|lia].
    destruct H as (c' & z' & -> & ->). exists c', z'. auto.
Qed.

(** [re.search] returns a match of the pattern, and no match of the
    pattern starts further to the left. *)
Theorem search_some r s m :
  search r s = Some m ->
  s = m_pre m ++ m_group0 m ++ m_post m /\
  occurs r (m_pre m) (m_group0 m) (m_post m) (m_groups m) /\
  (forall pre w post g,
      s = pre ++ w ++ post -> occurs r pre w post g ->
      length (m_pre m) <= length pre).
Proof.
  unfold search. intros H. apply search_from_sound in H.
  destruct H as (sk & w & Ha & Hm & Hpre & Hw & Hleft).
  simpl in Hpre. rewrite app_nil_r in Hm. rewrite Hpre, Hw.
  split; [assumption|]. split; [exact Hm|].
  intros pre w' post g Hs Hocc.
  destruct (le_lt_dec (length sk) (length pre)) as [|Hlt]; [assumption|].
  exfalso. rewrite Ha in Hs.
  destruct (app_eq_shorter _ _ _ _ _ Hs Hlt) as (c & z & Hsk & Hrest).
  eapply (Hleft _ _ _ Hsk). rewrite app_nil_r, <- Hrest. exact Hocc.
Qed.

(** [re.search] finds nothing exactly when the pattern matches nowhere. *)
Theorem search_none r s : search r s = None <-> ~ found r s.
Proof.
  unfold search, found. split.
  - intros H (pre & w & post & g & Hs & Hocc).
    eapply (search_from_none _ _ _ H pre (w ++ post) Hs).
    rewrite app_nil_r. exact Hocc.
  - intros Hno. destruct (search_from r [] s) eqn:E; [|reflexivity].
    exfalso. apply Hno. apply search_from_sound in E.
    destruct E as (sk & w & Ha & Hm & _).
    exists sk, w, (m_post m), (m_groups m). rewrite app_nil_r in Hm. auto.
Qed.

Lemma scan_eq r skip b a :
  scan r skip b a =
  match skip, a with
  | S n, c :: a' => scan r n (c :: b) a'
  | S _, [] => []
  | O, _ =>
      let next (n : nat) :=
        match a with
        | c :: a' => scan r n (c :: b) a'
        | [] => []
        end in
      match match_at r false b a with
      | Some m =>
          match length (m_group0 m) with
          | S n => m :: next n
          | O =>
              m :: match match_at r true b a with
                   | Some m' => m' :: next (pred (length (m_group0 m')))
                   | None => next 0
                   end
          end
      | None => next 0
      end
  end.
Proof. destruct a; reflexivity. Qed.

(** Every match of the scan is an attempt that succeeded somewhere in
    the subject. *)
Lemma scan_sound r :
  forall a skip b m,
    In m (scan r skip b a) ->
    exists must_advance s1 s2,
      a = s1 ++ s2 /\ match_at r must_advance (rev s1 ++ b) s2 = Some m.
Proof.
  assert (Hhere : forall must_advance b a m,
             match_at r must_advance b a = Some m ->
             exists ma s1 s2, a = s1 ++ s2 /\ match_at r ma (rev s1 ++ b) s2 = Some m).
  { intros ma b a m H. exists ma, [], a. auto. }
  induction a as [|c a IH]; intros skip b m Hin; rewrite scan_eq in Hin.
  - destruct skip; [|contradiction].
    destruct (match_at r false b []) eqn:E; [|contradiction].
    destruct (length (m_group0 m0)).
    + destruct Hin as [<-|Hin]; [eauto|].
      destruct (match_at r true b []) eqn:E'; [|contradiction].
      destruct Hin as [<-|[]]; eauto.
    + destruct Hin as [<-|[]]; eauto.
  - assert (Hnext : forall n, In m (scan r n (c :: b) a) ->
               exists ma s1 s2, c :: a = s1 ++ s2 /\
                                match_at r ma (rev s1 ++ b) s2 = Some m).
    { intros n H. apply IH in H. destruct H as (ma & s1 & s2 & -> & H).
      exists ma, (c :: s1), s2. simpl. rewrite <- app_assoc. auto. }
    destruct skip; [|eauto]. cbv zeta in Hin.
    destruct (match_at r false b (c :: a)) eqn:E; [|eauto].
    destruct (length (m_group0 m0)).
    + destruct Hin as [<-|Hin]; [eauto|].
      destruct (match_at r true b (c :: a)) eqn:E'; [|eauto].
      destruct Hin as [<-|Hin]; eauto.
    + destruct Hin as [<-|Hin]; eauto.
Qed.



End ReFacts.

(* ================================================================= *)
(** ** [float] and [max] *)

Module PyFloatFacts.
Import PyStr PyFloat.
Local Open Scope Z_scope.

Lemma max_from_spec (A : Type) (key : A -> Z) :
  forall l best,
    exists pre post,
      best :: l = pre ++ max_from key best l :: post /\
      (forall y, In y pre -> key y < key (max_from key best l)) /\
      (forall y, In y post -> key y <= key (max_from key best l)).
Proof.
  induction l as [|y l IH]; intros best; simpl.
  - exists [], []. simpl. intuition.
  - destruct (key y >? key best) eqn:E.
    + apply Z.gtb_lt in E.
      destruct (IH y) as (pre & post & Heq & Hpre & Hpost).
      exists (best :: pre), post. simpl. rewrite <- Heq.
      split; [reflexivity|]. split; [|assumption].
      intros z [<-|Hz]; [|auto].
      destruct pre as [|y' pre]; simpl in Heq.
      * injection Heq as Hy _. rewrite <- Hy. assumption.
      * injection Heq as <- _. specialize (Hpre y (or_introl eq_refl)). lia.
    + assert (Hle : key y <= key best) by (rewrite Z.gtb_ltb in E; apply Z.ltb_ge in E; lia).
      destruct (IH best) as (pre & post & Heq & Hpre & Hpost).
      destruct pre as [|b' pre]; simpl in Heq.
      * injection Heq as Hb <-. exists [], (y :: l). simpl.
        rewrite <- Hb. split; [reflexivity|]. split; [intros ? []|].
        intros z [<-|Hz]; [assumption|]. rewrite Hb. apply Hpost. assumption.
      * injection Heq as <- Hl. exists (best :: y :: pre), post. simpl.
        split; [do 2 f_equal; exact Hl|]. split; [|assumption].
        intros z [<-|[<-|Hz]].
        -- apply Hpre. left. reflexivity.
        -- specialize (Hpre best (or_introl eq_refl)). lia.
        -- apply Hpre. right. assumption.
Qed.





End PyFloatFacts.

(* ================================================================= *)
(** ** Field extraction *)

Module FieldsFacts.
Import PyStr Re ReFacts Fields PyFloatFacts.

Ltac inv H := inversion H; subst; clear H.

(** *** The forms of what the groups capture *)

Lemma is_digits_intro (w : text) :
  1 <= length w -> Forall (fun c => is_digit c = true) w -> is_digits w = true.
Proof.
  intros Hlen Hw. destruct w as [|c w]; [simpl in Hlen; lia|].
  unfold is_digits. apply forallb_forall. apply Forall_forall. exact Hw.
Qed.

Lemma is_decimal_intro (w1 w2 : text) :
  1 <= length w1 -> Forall (fun c => is_digit c = true) w1 ->
  length w2 = 2 -> Forall (fun c => is_digit c = true) w2 ->
  is_decimal (w1 ++ "."%char :: w2) = true.
Proof.
  intros H1 Hw1 H2 Hw2.
  destruct w2 as [|d1 [|d2 [|? ?]]]; try discriminate.
  inv Hw2. match goal with H : Forall _ [d2] |- _ => inv H end.
  unfold is_decimal. rewrite rev_app_distr. simpl.
  rewrite rev_involutive, is_digits_intro by assumption.
  repeat match goal with H : is_digit _ = true |- _ => rewrite H; clear H end.
  reflexivity.
Qed.

Lemma is_decimal_elim (s : text) :
  is_decimal s = true ->
  exists ds d1 d2,
    s = ds ++ ["."%char; d1; d2] /\ 1 <= length ds /\
    Forall (fun c => is_digit c = true) (ds ++ [d1; d2]).
Proof.
  unfold is_decimal. intros H.
  destruct (rev s) as [|d2 [|d1 [|p r]]] eqn:E; try discriminate.
  apply andb_prop in H. destruct H as [H Hds].
  apply andb_prop in H. destruct H as [H Hp].
  apply andb_prop in H. destruct H as [H2 H1].
  apply Ascii.eqb_eq in Hp. subst p.
  exists (rev r), d1, d2.
  split.
  { rewrite <- (rev_involutive s), E. simpl. rewrite <- !app_assoc. reflexivity. }
  unfold is_digits in Hds. destruct (rev r) as [|c ds] eqn:Er; [discriminate|].
  split; [simpl; lia|].
  apply Forall_app. split.
  - apply Forall_forall. apply forallb_forall. exact Hds.
  - repeat constructor; assumption.
Qed.

(** What group 1 of [([0-9]+(\.[0-9]{2})?)] holds after a match. *)
Lemma amount_group b a g b' a' g' :
  matches amount b a g b' a' g' ->
  exists w, lookup 1 g' = Some w /\ (is_digits w || is_decimal w = true).
Proof.
  unfold amount. intros H. inv H. exists (consumed b b'). split; [reflexivity|].
  match goal with H : matches (Seq _ _) _ _ _ _ _ _ |- _ => inv H end.
  match goal with H : matches (Plus _) _ _ _ _ _ _ |- _ => inv H end.
  match goal with H : matches (Opt _) _ _ _ _ _ _ |- _ => inv H end.
  - match goal with H : matches (Group _ _) _ _ _ _ _ _ |- _ => inv H end.
    match goal with H : matches (Seq _ _) _ _ _ _ _ _ |- _ => inv H end.
    match goal with H : matches (Class _) _ _ _ _ _ _ |- _ => inv H end.
    match goal with H : matches (Times _ _ _) _ _ _ _ _ _ |- _ => inv H end.
    match goal with H : is_char _ _ = true |- _ =>
      apply Ascii.eqb_eq in H; subst end.
    replace (rev w0 ++ "."%char :: rev w ++ b)
      with (rev (w ++ "."%char :: w0) ++ b)
      by (rewrite rev_app_distr; simpl; rewrite <- !app_assoc; reflexivity).
    rewrite consumed_app, is_decimal_intro; auto using orb_true_r.
    simpl in *. lia.
  - rewrite consumed_app, is_digits_intro; auto.
Qed.

(** Group 1 always takes part in a match of an anchored pattern. *)
Lemma anchored_group pattern b a b' a' g' :
  matches (anchored pattern) b a [] b' a' g' ->
  exists w, lookup 1 g' = Some w /\ (is_digits w || is_decimal w = true).
Proof.
  unfold anchored. simpl. intros H.
  repeat match goal with
         | H : matches (Seq _ _) _ _ _ _ _ _ |- _ => inv H
         end.
  eapply amount_group; eauto.
Qed.

Lemma search_anchored_group pattern t m :
  search (anchored pattern) t = Some m ->
  group 1 m = Some (group1 m) /\ (is_digits (group1 m) || is_decimal (group1 m) = true).
Proof.
  intros H. apply search_some in H. destruct H as (_ & Hocc & _).
  apply anchored_group in Hocc. destruct Hocc as (w & Hw & Hform).
  unfold group1, group. rewrite Hw. auto.
Qed.

(** What group 1 of [\$?\s*([0-9]+\.[0-9]{2})] holds after a match. *)
Lemma decimal_number_group b a b' a' g' :
  matches decimal_number b a [] b' a' g' ->
  exists w, lookup 1 g' = Some w /\ is_decimal w = true.
Proof.
  unfold decimal_number. simpl. intros H.
  repeat match goal with
         | H : matches (Seq _ _) _ _ _ _ _ _ |- _ => inv H
         end.
  match goal with H : matches (Group _ _) _ _ _ _ _ _ |- _ => inv H end.
  eexists. split; [reflexivity|].
  repeat match goal with
         | H : matches (Seq _ _) _ _ _ _ _ _ |- _ => inv H
         end.
  match goal with H : matches (Plus _) _ _ _ _ _ _ |- _ => inv H end.
  match goal with H : matches (Class _) _ _ _ _ _ _ |- _ => inv H end.
  match goal with H : matches (Times _ _ _) _ _ _ _ _ _ |- _ => inv H end.
  match goal with H : is_char _ _ = true |- _ =>
    apply Ascii.eqb_eq in H; subst end.
  match goal with
  | |- is_decimal (consumed ?b0 (rev ?w2 ++ _ :: rev ?w1 ++ ?b0)) = true =>
      replace (rev w2 ++ "."%char :: rev w1 ++ b0)
        with (rev (w1 ++ "."%char :: w2) ++ b0)
        by (rewrite rev_app_distr; simpl; rewrite <- !app_assoc; reflexivity)
  end.
  rewrite consumed_app. apply is_decimal_intro; auto. simpl in *. lia.
Qed.

(** Every string [findall] collects for the fallback has the form
    [digits.DD]. *)
Lemma findall_decimal t x :
  In x (findall decimal_number t) -> is_decimal x = true.
Proof.
  unfold findall. intros H. apply in_map_iff in H.
  destruct H as (m & <- & Hin). apply scan_sound in Hin.
  destruct Hin as (ma & s1 & s2 & _ & Hm). apply match_at_sound in Hm.
  destruct Hm as (w & _ & Hm & _). apply decimal_number_group in Hm.
  destruct Hm as (w' & Hw' & Hdec). unfold group1, group. rewrite Hw'. exact Hdec.
Qed.

(** *** Patterns and the substrings they match *)

(** A repetition matches any run of characters of its class whose
    length is within its bounds. *)
Lemma matches_repeat (p : ascii -> bool) lo hi w b a g b' :
  Forall (fun c => p c = true) w -> lo <= length w -> within hi (length w) ->
  b' = rev w ++ b ->
  matches (Repeat p lo hi) b (w ++ a) g b' a g.
Proof. intros Hw Hlo Hhi ->. constructor; assumption. Qed.

Lemma decimal_number_span b a b' a' g' :
  matches decimal_number b a [] b' a' g' ->
  exists u w, a = u ++ w ++ a' /\ lookup 1 g' = Some w /\ is_decimal w = true.
Proof.
  intros H. destruct (decimal_number_group _ _ _ _ _ H) as (w & Hw & Hdec).
  unfold decimal_number in H. simpl in H.
  inv H. match goal with H : matches (Seq _ _) _ _ _ _ _ _ |- _ => inv H end.
  match goal with H : matches (Group _ _) _ _ _ _ _ _ |- _ => inv H end.
  repeat match goal with
         | H : matches _ _ _ _ _ _ _ |- _ =>
             apply matches_span in H; destruct H as (? & ? & ?)
         end.
  subst. simpl in Hw. rewrite consumed_app in Hw. injection Hw as <-.
  eexists (_ ++ _), _. rewrite <- app_assoc. split; [reflexivity|].
  simpl. rewrite consumed_app. auto.
Qed.

Lemma findall_substring t x :
  In x (findall decimal_number t) -> exists pre post, t = pre ++ x ++ post.
Proof.
  unfold findall. intros H. apply in_map_iff in H.
  destruct H as (m & <- & Hin). apply scan_sound in Hin.
  destruct Hin as (ma & s1 & s2 & -> & Hm). apply match_at_sound in Hm.
  destruct Hm as (w & Hs2 & Hm & _). apply decimal_number_span in Hm.
  destruct Hm as (u & x & Hu & Hx & _).
  exists (s1 ++ u), (m_post m). unfold group1, group. rewrite Hx, Hu, <- app_assoc.
  reflexivity.
Qed.


Lemma numeric_date_match b a g b' a' g' :
  matches numeric_date b a g b' a' g' ->
  exists d, a = d ++ a' /\ b' = rev d ++ b /\ is_numeric_date d.
Proof.
  unfold numeric_date. cbn [seq]. intros H.
  repeat match goal with
         | H : matches (Seq _ _) _ _ _ _ _ _ |- _ => inv H
         end.
  repeat match goal with
         | H : matches (Class _) _ _ _ _ _ _ |- _ => inv H
         | H : matches (Times _ _ _) _ _ _ _ _ _ |- _ => inv H
         end.
  match goal with
  | |- exists d, ?w1 ++ ?c1 :: ?w2 ++ ?c2 :: ?w3 ++ _ = _ /\ _ =>
      exists (w1 ++ c1 :: w2 ++ c2 :: w3)
  end.
  split; [|split].
  - repeat (rewrite <- app_assoc; simpl). reflexivity.
  - repeat (rewrite rev_app_distr; simpl). repeat (rewrite <- app_assoc; simpl).
    reflexivity.
  - unfold is_numeric_date. do 5 eexists. split; [reflexivity|].
    simpl in *. repeat split; auto; try lia.
    repeat (apply Forall_app; split); assumption.
Qed.

Lemma numeric_date_intro d :
  is_numeric_date d ->
  forall b a' g, matches numeric_date b (d ++ a') g (rev d ++ b) a' g.
Proof.
  intros (d1 & s1 & d2 & s2 & y & -> & Hdig & H1 & H2 & H3 & Hs1 & Hs2) b a' g.
  apply Forall_app in Hdig. destruct Hdig as [Hd1 Hdig].
  apply Forall_app in Hdig. destruct Hdig as [Hd2 Hy].
  unfold numeric_date. cbn [seq].
  replace ((d1 ++ s1 :: d2 ++ s2 :: y) ++ a')
    with (d1 ++ s1 :: d2 ++ s2 :: y ++ a')
    by (repeat (rewrite <- app_assoc; simpl); reflexivity).
  eapply M_Seq; [apply (matches_repeat is_digit 1 (Some 2) d1); simpl; auto; lia|].
  eapply M_Seq; [apply M_Class; assumption|].
  eapply M_Seq; [apply (matches_repeat is_digit 1 (Some 2) d2); simpl; auto; lia|].
  eapply M_Seq; [apply M_Class; assumption|].
  apply (matches_repeat is_digit 2 (Some 4) y); simpl; auto; try lia.
  repeat (rewrite rev_app_distr; simpl). repeat (rewrite <- app_assoc; simpl).
  reflexivity.
Qed.

Lemma found_numeric_date t : found numeric_date t <-> contains_numeric_date t.
Proof.
  unfold found, contains_numeric_date, occurs. split.
  - intros (pre & w & post & g & -> & H).
    apply numeric_date_match in H. destruct H as (d & Hd & _ & Hform).
    apply app_inv_tail in Hd. subst w. eauto.
  - intros (pre & d & post & -> & Hd).
    exists pre, d, post, []. split; [reflexivity|].
    apply numeric_date_intro. assumption.
Qed.

Lemma found_of_search r s m : search r s = Some m -> found r s.
Proof.
  intros H. apply search_some in H. destruct H as (Hs & Hocc & _).
  exists (m_pre m), (m_group0 m), (m_post m), (m_groups m). auto.
Qed.

(** *** The value of a literal and its double *)

Local Open Scope Z_scope.











Lemma max_by_in (A : Type) (key : A -> Z) (l : list A) (x : A) :
  PyFloat.max_by key l = Some x ->
  exists earlier later,
    l = earlier ++ x :: later /\
    (forall y, In y earlier -> (key y < key x)%Z) /\
    (forall y, In y later -> (key y <= key x)%Z).
Proof.
  destruct l as [|a l]; simpl; [discriminate|]. intros H. injection H as <-.
  apply max_from_spec.
Qed.

Local Close Scope Z_scope.

(** *** The tiers of [extract_total] *)

Lemma first_anchored_none patterns t :
  first_anchored patterns t = None <-> ~ keyword_found patterns t.
Proof.
  unfold keyword_found. induction patterns as [|p ps IH]; simpl.
  - split; [intros _ (p & [] & _)|reflexivity].
  - destruct (search (anchored p) t) eqn:E.
    + split; [discriminate|]. intros H. exfalso. apply H.
      exists p. split; [auto|]. eapply found_of_search; eauto.
    + rewrite IH. apply search_none in E. split.
      * intros H (q & [<-|Hq] & Hf); [auto|]. apply H. eauto.
      * intros H (q & Hq & Hf). apply H. eauto.
Qed.

Lemma first_anchored_some patterns t n :
  first_anchored patterns t = Some n -> tier_number patterns t n.
Proof.
  unfold tier_number. induction patterns as [|p ps IH]; simpl; [discriminate|].
  destruct (search (anchored p) t) eqn:E.
  - intros H. injection H as <-. exists [], p, ps, m.
    destruct (search_anchored_group _ _ _ E) as [Hg _].
    repeat split; auto.
  - intros H. apply IH in H.
    destruct H as (before & kw & after & m & -> & Hno & Hs & Hg).
    exists (p :: before), kw, after, m. repeat split; auto.
    intros q [<-|Hq]; [apply search_none; assumption|auto].
Qed.

Lemma tier_number_form patterns t n :
  tier_number patterns t n -> is_digits n || is_decimal n = true.
Proof.
  intros (before & kw & after & m & _ & _ & Hs & Hg).
  destruct (search_anchored_group _ _ _ Hs) as [Hg' Hform]. congruence.
Qed.

(** The three tiers of [extract_total], each tried only when the ones
    before it found nothing. *)
Lemma extract_total_cases text :
  let t := normalize text in
  (exists n, first_anchored total_patterns t = Some n /\ extract_total text = Some n)
  \/ (first_anchored total_patterns t = None /\
      exists n, first_anchored subtotal_patterns t = Some n /\ extract_total text = Some n)
  \/ (first_anchored total_patterns t = None /\
      first_anchored subtotal_patterns t = None /\
      extract_total text =
      match findall decimal_number t with
      | [] => None
      | x :: l => Some (PyFloat.max_from PyFloat.float x l)
      end).
Proof.
  unfold extract_total. cbv zeta.
  destruct (first_anchored total_patterns (normalize text)) eqn:E1; [left; eauto|].
  destruct (first_anchored subtotal_patterns (normalize text)) eqn:E2;
    [right; left; eauto|].
  right; right. repeat split.
  destruct (findall decimal_number (normalize text)); reflexivity.
Qed.

Lemma fallback_only (text : text) :
  ~ keyword_found total_patterns (normalize text) ->
  ~ keyword_found subtotal_patterns (normalize text) ->
  extract_total text
  = PyFloat.max_by PyFloat.float (findall decimal_number (normalize text)).
Proof.
  intros H1 H2. apply first_anchored_none in H1, H2.
  unfold extract_total. cbv zeta. rewrite H1, H2.
  destruct (findall decimal_number (normalize text)); reflexivity.
Qed.


(** *** The date *)




(** *** The total *)

(** C1.  [extract_total] works on the lower-cased text with every comma
    replaced by a period.  When one of the total keywords -- in the
    order total, grand total, amount due, balance due, invoice total --
    is followed by an amount, the amount of the first such keyword is
    returned, whether or not a subtotal keyword matches too; the
    subtotal keywords are consulted only when no total keyword matches,
    and the largest decimal number only when no keyword matches at
    all. *)
Theorem extract_total_tier_order :
  (forall text : text,
      let t := replace "," "." (lower text) in
      (keyword_found total_patterns t ->
       exists n, tier_number total_patterns t n /\ extract_total text = Some n) /\
      (keyword_found total_patterns t -> keyword_found subtotal_patterns t ->
       exists n, tier_number total_patterns t n /\ extract_total text = Some n) /\
      (~ keyword_found total_patterns t -> keyword_found subtotal_patterns t ->
       exists n, tier_number subtotal_patterns t n /\ extract_total text = Some n) /\
      (~ keyword_found total_patterns t -> ~ keyword_found subtotal_patterns t ->
       extract_total text
       = PyFloat.max_by PyFloat.float (findall decimal_number t)))
  /\ extract_total (of_string "Subtotal: 10.00 Total Due: $45.50")
     = Some (of_string "45.50").
Proof.
  split; [|vm_compute; reflexivity].
  intros text t.
  assert (Htotal : keyword_found total_patterns t ->
            exists n, tier_number total_patterns t n /\ extract_total text = Some n).
  { intros H. destruct (extract_total_cases text) as [(n & E & R)|[(E & _)|(E & _)]].
    - exists n. split; [apply first_anchored_some; exact E|exact R].
    - apply first_anchored_none in E. contradiction.
    - apply first_anchored_none in E. contradiction. }
  split; [exact Htotal|]. split; [intros H _; exact (Htotal H)|]. split.
  - intros H1 H2.
    destruct (extract_total_cases text) as [(n & E & _)|[(_ & n & E & R)|(_ & E & _)]].
    + exfalso. apply H1. apply first_anchored_some in E.
      destruct E as (before & kw & after & m & Hp & _ & Hs & _).
      exists kw. split; [|eapply found_of_search; eauto].
      fold t in Hp. rewrite Hp. apply in_elt.
    + exists n. split; [apply first_anchored_some; exact E|exact R].
    + apply first_anchored_none in E. contradiction.
  - apply fallback_only.
Qed.

(** C9 (as amended).  Every result of [extract_total] is a string of
    one or more digits, optionally followed by a period and exactly two
    digits; a result of the fallback on the largest decimal number
    always has the period and the two digits. *)
Theorem extract_total_form (text s : text) :
  extract_total text = Some s ->
  (is_digits s || is_decimal s = true) /\
  (~ keyword_found total_patterns (normalize text) ->
   ~ keyword_found subtotal_patterns (normalize text) ->
   is_decimal s = true).
Proof.
  intros H.
  assert (Hfall : extract_total text
                  = PyFloat.max_by PyFloat.float
                      (findall decimal_number (normalize text)) ->
                  is_decimal s = true).
  { intros E. rewrite E in H. apply max_by_in in H.
    destruct H as (earlier & later & Hl & _).
    apply findall_decimal with (t := normalize text). rewrite Hl. apply in_elt. }
  split.
  - destruct (extract_total_cases text) as [(n & E & R)|[(_ & n & E & R)|(E1 & E2 & R)]].
    + apply first_anchored_some, tier_number_form in E. congruence.
    + apply first_anchored_some, tier_number_form in E. congruence.
    + rewrite Hfall; [apply orb_true_r|].
      apply fallback_only; apply first_anchored_none; assumption.
  - intros H1 H2. apply Hfall. apply fallback_only; assumption.
Qed.

Lemma extract_total_form_witness :
  extract_total (of_string "total 45") = Some (of_string "45") /\
  (is_digits (of_string "45") || is_decimal (of_string "45") = true) /\
  (~ keyword_found total_patterns (normalize (of_string "total 45")) ->
   ~ keyword_found subtotal_patterns (normalize (of_string "total 45")) ->
   is_decimal (of_string "45") = true).
Proof.
  split; [reflexivity|].
  apply (extract_total_form (of_string "total 45") (of_string "45")).
  reflexivity.
Defined.

(** C9, the claim as worded fails: after a total keyword the two
    decimals are optional, and a whole number is returned as it is. *)
Lemma extract_total_whole_number :
  extract_total (of_string "total 45") = Some (of_string "45") /\
  is_decimal (of_string "45") = false.
Proof. split; reflexivity. Qed.







End FieldsFacts.

(* ================================================================= *)
(** ** Image preprocessing *)

Module PreprocessFacts.
Import Preprocess.
Local Open Scope Z_scope.






Section Chain.

Variable file : Type.
Variable imread : file -> option image.
Variable GaussianBlur : Z * Z -> Z -> image -> image.
Variable cvtColor_BGR2GRAY : image -> image.
Variable clahe_apply : image -> image.


(** C8.  For a blur radius [b >= 0] the kernel size [2b + 1] is odd;
    a positive radius smooths the adjusted image with the square kernel
    of that size, and radius 0 leaves the adjusted image as it is, so
    that the grayscale conversion receives the result of the first step
    unchanged. *)
Theorem smoothing_kernel (blur : Z) (adjusted : image) :
  0 <= blur ->
  Z.odd (blur * 2 + 1) = true /\
  (0 < blur ->
   smooth GaussianBlur blur adjusted
   = GaussianBlur (blur * 2 + 1, blur * 2 + 1) 0 adjusted) /\
  (blur = 0 -> smooth GaussianBlur blur adjusted = adjusted) /\
  (blur = 0 ->
   forall image_path contrast brightness,
     preprocess_image imread GaussianBlur cvtColor_BGR2GRAY clahe_apply
       image_path contrast brightness blur
     = option_map
         (fun src =>
            clahe_apply
              (GaussianBlur (5, 5) 0
                 (cvtColor_BGR2GRAY (convertScaleAbs contrast brightness src))))
         (imread image_path)).
Proof.
  intros Hb. split; [|split; [|split]].
  - rewrite Z.mul_comm, Z.add_comm. rewrite Z.odd_add_mul_2. reflexivity.
  - intros Hpos. unfold smooth.
    destruct (blur >? 0) eqn:E; [reflexivity|].
    rewrite Z.gtb_ltb in E. apply Z.ltb_ge in E. lia.
  - intros ->. reflexivity.
  - intros -> image_path contrast brightness. unfold preprocess_image.
    destruct (imread image_path); reflexivity.
Qed.

End Chain.


Lemma smoothing_kernel_witness :
  let blur3 (ksize : Z * Z) (sigma : Z) (src : image) : image :=
    map (map (map (fun p => p / fst ksize))) src in
  0 <= 2 /\
  Z.odd (2 * 2 + 1) = true /\
  (0 < 2 -> smooth blur3 2 [[[9; 9; 9]]] = blur3 (2 * 2 + 1, 2 * 2 + 1) 0 [[[9; 9; 9]]]) /\
  (2 = 0 -> smooth blur3 2 [[[9; 9; 9]]] = [[[9; 9; 9]]]) /\
  (2 = 0 ->
   forall image_path contrast brightness,
     preprocess_image (fun f : image => Some f) blur3 (fun i => i) (fun i => i)
       image_path contrast brightness 2
     = option_map
         (fun src =>
            blur3 (5, 5) 0 (convertScaleAbs contrast brightness src))
         (Some image_path)).
Proof.
  intros blur3. split; [lia|].
  apply (smoothing_kernel image (fun f : image => Some f) blur3 (fun i => i)
           (fun i => i) 2 [[[9; 9; 9]]]).
  lia.
Defined.

End PreprocessFacts.

(* ================================================================= *)
(** ** The invoice store *)

Module StoreFacts.
Import PyStr Store.

Section Store.

Variable content : Type.
Variable json_load : content -> outcome json.
Variable json_dump : json -> content.

(** C7.  [load_saved_data] returns the empty list when the file is
    absent and when it is present with content on which [json.load]
    raises; in no state of the file does it raise. *)
Theorem load_never_fails :
  load_saved_data json_load None = Return (JArray []) /\
  (forall c e, json_load c = Raise e ->
               load_saved_data json_load (Some c) = Return (JArray [])) /\
  (forall f, exists data, load_saved_data json_load f = Return data).
Proof.
  split; [reflexivity|]. split.
  - intros c e H. simpl. rewrite H. reflexivity.
  - intros [c|]; simpl; [|eauto]. destruct (json_load c); eauto.
Qed.

(** [json.load] reads back what [json.dump] wrote. *)
Hypothesis load_dump : forall v, json_load (json_dump v) = Return v.

Lemma save_then_load (new_entries old : list json) (f : data_file content) :
  load_saved_data json_load f = Return (JArray old) ->
  exists f',
    save_invoice_data json_load json_dump new_entries f = Return f' /\
    load_saved_data json_load f' = Return (JArray (old ++ new_entries)).
Proof.
  intros H. unfold save_invoice_data. rewrite H.
  eexists. split; [reflexivity|]. simpl. rewrite load_dump. reflexivity.
Qed.

(** C3.  On a store that holds a list, a sequence of appends succeeds
    and leaves the old records followed by the new ones, batch after
    batch, each in the order given: nothing is lost or reordered.
    Appending A, then B, then C to an absent store makes it load as
    [A, B, C]. *)
Theorem appends_concatenate :
  (forall (batches : list (list json)) (f : data_file content) (old : list json),
      load_saved_data json_load f = Return (JArray old) ->
      exists f',
        save_all json_load json_dump batches f = Return f' /\
        load_saved_data json_load f' = Return (JArray (old ++ concat batches))) /\
  (forall A B C : json,
      exists f',
        save_all json_load json_dump [[A]; [B]; [C]] None = Return f' /\
        load_saved_data json_load f' = Return (JArray [A; B; C])).
Proof.
  assert (Hall : forall (batches : list (list json)) (f : data_file content) old,
             load_saved_data json_load f = Return (JArray old) ->
             exists f',
               save_all json_load json_dump batches f = Return f' /\
               load_saved_data json_load f'
               = Return (JArray (old ++ concat batches))).
  { induction batches as [|new_entries rest IH]; intros f old H; simpl.
    - exists f. rewrite app_nil_r. auto.
    - destruct (save_then_load new_entries old f H) as (f1 & -> & H1).
      destruct (IH f1 _ H1) as (f' & Hs & Hl).
      exists f'. rewrite app_assoc. auto. }
  split; [exact Hall|].
  intros A B C. apply (Hall [[A]; [B]; [C]] None []). reflexivity.
Qed.

End Store.

Lemma appends_concatenate_witness :
  (forall v, sample_load (sample_dump v) = Return v) /\
  exists f',
    save_all sample_load sample_dump
      [[JString (of_string "A")]; [JString (of_string "B")];
       [JString (of_string "C")]] None = Return f' /\
    load_saved_data sample_load f'
    = Return (JArray [JString (of_string "A"); JString (of_string "B");
                      JString (of_string "C")]).
Proof.
  split; [reflexivity|].
  apply (appends_concatenate sample_content sample_load sample_dump
           (fun v => eq_refl)).
Defined.

End StoreFacts.

(* ================================================================= *)
(** ** The [/analyze] route *)

Module AnalyzeFacts.
Import PyStr Store Analyze.

Section Analyze.

Variable file : Type.
Variable imread : file -> option Preprocess.image.
Variable GaussianBlur : Z * Z -> Z -> Preprocess.image -> Preprocess.image.
Variable cvtColor_BGR2GRAY : Preprocess.image -> Preprocess.image.
Variable clahe_apply : Preprocess.image -> Preprocess.image.
Variable image_to_string : Preprocess.image -> text.
Variable content : Type.
Variable json_load : content -> outcome json.
Variable json_dump : json -> content.

Variable contrast : Q.
Variable brightness blur : Z.

Abbreviation analyze_image :=
  (analyze_image imread GaussianBlur cvtColor_BGR2GRAY clahe_apply
     image_to_string contrast brightness blur).
Abbreviation analyze_loop :=
  (analyze_loop imread GaussianBlur cvtColor_BGR2GRAY clahe_apply
     image_to_string contrast brightness blur).
Abbreviation records_of :=
  (records_of imread GaussianBlur cvtColor_BGR2GRAY clahe_apply
     image_to_string contrast brightness blur).
Abbreviation analyze_invoice :=
  (analyze_invoice imread GaussianBlur cvtColor_BGR2GRAY clahe_apply
     image_to_string json_load json_dump contrast brightness blur).

Lemma analyze_loop_records (images : list (upload file)) :
  forall results, analyze_loop images results = results ++ records_of images.
Proof.
  induction images as [|img rest IH]; intros results; simpl.
  - rewrite app_nil_r. reflexivity.
  - destruct (analyze_image img); rewrite IH.
    + rewrite <- app_assoc. reflexivity.
    + reflexivity.
Qed.





End Analyze.


End AnalyzeFacts.

(* ================================================================= *)
(** ** Keywords and amounts of [extract_total] *)

Module KeywordFacts.
Import PyStr Re ReFacts Fields PyFloatFacts FieldsFacts Notions.

Lemma lower_char_idempotent (c : ascii) : lower_char (lower_char c) = lower_char c.
Proof. destruct c as [[] [] [] [] [] [] [] []]; reflexivity. Qed.

Lemma normalize_char_lower (c : ascii) :
  (if Ascii.eqb (lower_char (lower_char c)) "," then "."%char else lower_char (lower_char c))
  = (if Ascii.eqb (lower_char c) "," then "."%char else lower_char c).
Proof. rewrite lower_char_idempotent. reflexivity. Qed.

Lemma normalize_char_comma (c : ascii) :
  let c' := if Ascii.eqb c "," then "."%char else c in
  (if Ascii.eqb (lower_char c') "," then "."%char else lower_char c')
  = (if Ascii.eqb (lower_char c) "," then "."%char else lower_char c).
Proof. destruct c as [[] [] [] [] [] [] [] []]; reflexivity. Qed.

Lemma normalize_char_period (c : ascii) :
  let c' := if Ascii.eqb c "." then ","%char else c in
  (if Ascii.eqb (lower_char c') "," then "."%char else lower_char c')
  = (if Ascii.eqb (lower_char c) "," then "."%char else lower_char c).
Proof. destruct c as [[] [] [] [] [] [] [] []]; reflexivity. Qed.

Lemma extract_total_normalize (t1 t2 : text) :
  normalize t1 = normalize t2 -> extract_total t1 = extract_total t2.
Proof. intros H. unfold extract_total. rewrite H. reflexivity. Qed.

(** X1.  [extract_total] does not see the case of the letters, nor
    whether a separator is written as a comma or as a period: lowering
    the text, turning its commas into periods or its periods into
    commas leaves the result as it is. *)
Theorem extract_total_insensitive (text : text) :
  extract_total (lower text) = extract_total text /\
  extract_total (replace "," "." text) = extract_total text /\
  extract_total (replace "." "," text) = extract_total text.
Proof.
  repeat split; apply extract_total_normalize; unfold normalize, replace, lower;
    rewrite !map_map; apply map_ext; intros c.
  - apply normalize_char_lower.
  - apply normalize_char_comma.
  - apply normalize_char_period.
Qed.

Lemma literal_span (s : text) :
  forall b a g b' a' g',
    matches (literal s) b a g b' a' g' ->
    a = s ++ a' /\ b' = rev s ++ b /\ g' = g.
Proof.
  induction s as [|c s IH]; intros b a g b' a' g' H.
  - inv H. auto.
  - destruct s as [|c' s].
    + inv H. match goal with H : is_char _ _ = true |- _ =>
        apply Ascii.eqb_eq in H; subst end. auto.
    + change (literal (c :: c' :: s))
        with (Seq (Class (is_char c)) (literal (c' :: s))) in H.
      remember (literal (c' :: s)) as r eqn:Er. inv H.
      match goal with H : matches (Class _) _ _ _ _ _ _ |- _ => inv H end.
      match goal with H : is_char _ _ = true |- _ =>
        apply Ascii.eqb_eq in H; subst end.
      match goal with H : matches (literal _) _ _ _ _ _ _ |- _ =>
        apply IH in H; destruct H as (-> & -> & ->) end.
      simpl. rewrite <- !app_assoc. auto.
Qed.

Lemma literal_intro (s : text) :
  forall b a' g, matches (literal s) b (s ++ a') g (rev s ++ b) a' g.
Proof.
  induction s as [|c s IH]; intros b a' g.
  - constructor.
  - destruct s as [|c' s].
    + simpl. constructor. apply Ascii.eqb_refl.
    + change (literal (c :: c' :: s))
        with (Seq (Class (is_char c)) (literal (c' :: s))).
      eapply M_Seq; [apply M_Class; apply Ascii.eqb_refl|].
      replace (rev (c :: c' :: s) ++ b) with (rev (c' :: s) ++ c :: b)
        by (simpl; rewrite <- !app_assoc; reflexivity).
      apply IH.
Qed.

Lemma space_not_word (c : ascii) : is_space c = true -> is_word c = false.
Proof. destruct c as [[] [] [] [] [] [] [] []]; simpl; intros H; try reflexivity; discriminate. Qed.

Lemma qualified_total_match qualifier b a g b' a' g' :
  matches (qualified_total qualifier) b a g b' a' g' ->
  exists u v,
    a = u ++ v ++ a' /\ b' = rev v ++ rev u ++ b /\ g' = g /\
    matches total_keyword (rev u ++ b) (v ++ a') g b' a' g.
Proof.
  unfold qualified_total, total_keyword, Lit. cbn [seq]. intros H.
  inv H.
  match goal with H : matches WordB _ _ _ _ _ _ |- _ => inv H end.
  match goal with H : matches (Seq _ _) _ _ _ _ _ _ |- _ => inv H end.
  match goal with H : matches (literal _) _ _ _ _ _ _ |- _ =>
    apply literal_span in H; destruct H as (-> & -> & ->) end.
  match goal with H : matches (Seq _ _) _ _ _ _ _ _ |- _ => inv H end.
  match goal with H : matches (Plus _) _ _ _ _ _ _ |- _ => inv H end.
  match goal with H : matches (Seq _ _) _ _ _ _ _ _ |- _ => inv H end.
  match goal with H : matches (Seq (Class _) _) _ _ _ _ _ _ |- _ =>
    apply (literal_span (of_string "total")) in H;
    destruct H as (Ha & -> & ->) end.
  match goal with H : matches WordB _ _ _ _ _ _ |- _ => inv H end.
  exists (of_string qualifier ++ w), (of_string "total").
  rewrite rev_app_distr, <- !app_assoc.
  repeat split; auto.
  eapply M_Seq; [|eapply M_Seq; [apply literal_intro|apply M_WordB; assumption]].
  apply M_WordB. unfold at_boundary.
  destruct (rev w) as [|c r] eqn:Er.
  - apply (f_equal (@length ascii)) in Er. rewrite length_rev in Er.
    simpl in Er. lia.
  - simpl. rewrite space_not_word; [reflexivity|].
    match goal with H : Forall _ w |- _ =>
      rewrite Forall_forall in H; apply H end.
    apply in_rev. rewrite Er. left. reflexivity.
Qed.

Lemma anchored_span pattern b a b' a' g' :
  matches (anchored pattern) b a [] b' a' g' ->
  exists u w, a = u ++ w ++ a' /\ lookup 1 g' = Some w.
Proof.
  unfold anchored, amount. cbn [seq]. intros H.
  inv H. match goal with H : matches (Seq _ _) _ _ _ _ _ _ |- _ => inv H end.
  match goal with H : matches (Seq _ _) _ _ _ _ _ _ |- _ => inv H end.
  match goal with H : matches (Seq _ _) _ _ _ _ _ _ |- _ => inv H end.
  match goal with H : matches (Group _ _) _ _ _ _ _ _ |- _ => inv H end.
  match goal with H : matches pattern _ _ _ _ _ _ |- _ =>
    apply matches_span in H; destruct H as (u1 & -> & ->) end.
  match goal with H : matches (Star not_digit_or_dollar) _ _ _ _ _ _ |- _ =>
    apply matches_span in H; destruct H as (u2 & -> & ->) end.
  match goal with H : matches (Opt _) _ _ _ _ _ _ |- _ =>
    apply matches_span in H; destruct H as (u3 & -> & ->) end.
  match goal with H : matches (Star is_space) _ _ _ _ _ _ |- _ =>
    apply matches_span in H; destruct H as (u4 & -> & ->) end.
  match goal with H : matches (Seq _ _) _ _ _ _ _ _ |- _ =>
    apply matches_span in H; destruct H as (w & -> & ->) end.
  exists (u1 ++ u2 ++ u3 ++ u4), w. rewrite <- !app_assoc.
  split; [reflexivity|]. simpl. rewrite consumed_app. reflexivity.
Qed.

Lemma anchored_qualified qualifier t :
  found (anchored (qualified_total qualifier)) t ->
  found (anchored total_keyword) t.
Proof.
  unfold found, occurs. intros (pre & w & post & g & -> & H).
  unfold anchored in H. cbn [seq] in H. inv H.
  match goal with H : matches (qualified_total _) _ _ _ _ _ _ |- _ =>
    apply qualified_total_match in H;
    destruct H as (u & v & Ha & -> & -> & Hkw) end.
  match goal with H : matches (Seq _ _) _ _ _ _ _ _ |- _ =>
    pose proof (matches_span _ _ _ _ _ _ _ H) as (x & -> & Hb) end.
  assert (Hw : w = u ++ v ++ x).
  { apply app_inv_tail with (l := post). rewrite Ha, <- !app_assoc. reflexivity. }
  subst w.
  exists (pre ++ u), (v ++ x), post, g. rewrite <- !app_assoc.
  split; [reflexivity|].
  unfold anchored. cbn [seq].
  rewrite !rev_app_distr, <- !app_assoc in *.
  eapply M_Seq; [exact Hkw|].
  match goal with H : matches (Seq _ _) _ _ _ _ _ _ |- _ => exact H end.
Qed.

(** X2.  The keywords [grand total], [invoice total] and [sub total]
    never decide a result: wherever one of them is followed by an
    amount, the bare keyword [total] inside it is followed by an amount
    too, and [total] is tried first, so the result is the amount after
    the leftmost [total].  In particular a number after [sub total] is
    returned by the total tier, ahead of a later [amount due]. *)
Theorem total_decides_qualified_keywords :
  (nth_error total_patterns 0 = Some total_keyword /\
   nth_error total_patterns 1 = Some (qualified_total "grand") /\
   nth_error total_patterns 4 = Some (qualified_total "invoice") /\
   nth_error subtotal_patterns 1 = Some (qualified_total "sub")) /\
  (forall (text : text) (qualifier : string),
      found (anchored (qualified_total qualifier)) (normalize text) ->
      exists m,
        search (anchored total_keyword) (normalize text) = Some m /\
        extract_total text = Some (group1 m)) /\
  extract_total (of_string "Sub total: 10.00 Amount due: 45.50")
  = Some (of_string "10.00").
Proof.
  split; [repeat split|]. split; [|vm_compute; reflexivity].
  intros text qualifier H. apply anchored_qualified in H.
  destruct (search (anchored total_keyword) (normalize text)) as [m|] eqn:E;
    [|apply search_none in E; contradiction].
  exists m. split; [reflexivity|].
  unfold extract_total. cbv zeta.
  change total_patterns with (total_keyword :: tl total_patterns).
  cbn [first_anchored]. rewrite E. reflexivity.
Qed.

Lemma normalize_char_plain (c : ascii) :
  let n := if Ascii.eqb (lower_char c) "," then "."%char else lower_char c in
  is_digit n = true \/ n = "."%char ->
  (if Ascii.eqb c "," then "."%char else c) = n.
Proof.
  destruct c as [[] [] [] [] [] [] [] []]; vm_compute;
    intros [H|H]; (reflexivity || discriminate).
Qed.

Lemma normalize_digits (s : text) :
  Forall (fun c => is_digit c = true \/ c = "."%char) (normalize s) ->
  replace "," "." s = normalize s.
Proof.
  unfold normalize, replace, lower. rewrite map_map.
  induction s as [|c s IH]; simpl; [reflexivity|].
  intros H. inversion H as [|? ? Hc Hs]; subst. rewrite IH by assumption.
  f_equal. apply normalize_char_plain. assumption.
Qed.

Lemma amount_chars (s : text) :
  is_digits s || is_decimal s = true ->
  Forall (fun c => is_digit c = true \/ c = "."%char) s.
Proof.
  intros H. apply orb_prop in H. destruct H as [H|H].
  - destruct s as [|c s]; [discriminate|]. unfold is_digits in H.
    rewrite forallb_forall in H. apply Forall_forall. auto.
  - destruct (is_decimal_elim s H) as (ds & d1 & d2 & -> & _ & Hd).
    apply Forall_app in Hd. destruct Hd as [Hds Hdd].
    apply Forall_app. split.
    + eapply Forall_impl; [|exact Hds]. auto.
    + constructor; [auto|]. eapply Forall_impl; [|exact Hdd]. auto.
Qed.

Lemma extract_total_in_normalized (text s : text) :
  extract_total text = Some s ->
  exists pre post, normalize text = pre ++ s ++ post.
Proof.
  intros H.
  destruct (extract_total_cases text) as [(n & E & R)|[(_ & n & E & R)|(_ & _ & R)]].
  - rewrite R in H. injection H as ->. apply first_anchored_some in E.
    destruct E as (_ & kw & _ & m & _ & _ & Hs & Hg).
    apply search_some in Hs. destruct Hs as (Ht & Hocc & _).
    apply anchored_span in Hocc. destruct Hocc as (u & w & Hu & Hw).
    unfold group in Hg. rewrite Hw in Hg. injection Hg as ->.
    exists (m_pre m ++ u), (m_post m). rewrite Ht, Hu, <- !app_assoc. reflexivity.
  - rewrite R in H. injection H as ->. apply first_anchored_some in E.
    destruct E as (_ & kw & _ & m & _ & _ & Hs & Hg).
    apply search_some in Hs. destruct Hs as (Ht & Hocc & _).
    apply anchored_span in Hocc. destruct Hocc as (u & w & Hu & Hw).
    unfold group in Hg. rewrite Hw in Hg. injection Hg as ->.
    exists (m_pre m ++ u), (m_post m). rewrite Ht, Hu, <- !app_assoc. reflexivity.
  - rewrite R in H. apply findall_substring.
    destruct (findall decimal_number (normalize text)) as [|x l]; [discriminate|].
    injection H as <-.
    destruct (max_from_spec _ PyFloat.float l x) as (earlier & later & Hl & _).
    rewrite Hl. apply in_elt.
Qed.

Lemma total_amount_form (text s : text) :
  extract_total text = Some s -> is_digits s || is_decimal s = true.
Proof.
  intros H.
  destruct (extract_total_cases text) as [(n & E & R)|[(_ & n & E & R)|(_ & _ & R)]].
  - apply first_anchored_some, tier_number_form in E. congruence.
  - apply first_anchored_some, tier_number_form in E. congruence.
  - rewrite R in H.
    destruct (findall decimal_number (normalize text)) as [|x l] eqn:El;
      [discriminate|].
    injection H as <-.
    destruct (max_from_spec _ PyFloat.float l x) as (earlier & later & Hl & _).
    rewrite (findall_decimal (normalize text)); [apply orb_true_r|].
    rewrite El, Hl. apply in_elt.
Qed.

(** X3.  A total that [extract_total] returns stands in the text: the
    text holds a stretch that reads as the result once its commas are
    taken for periods, and the result contains nothing but digits and
    periods. *)
Theorem extract_total_in_text (text s : text) :
  extract_total text = Some s ->
  exists pre s' post,
    text = pre ++ s' ++ post /\ s = replace "," "." s' /\
    Forall (fun c => is_digit c = true \/ c = "."%char) s.
Proof.
  intros H. pose proof (total_amount_form text s H) as Hform.
  apply amount_chars in Hform.
  destruct (extract_total_in_normalized text s H) as (p & q & Hn).
  unfold normalize, replace, lower in Hn. rewrite map_map in Hn.
  apply map_eq_app in Hn. destruct Hn as (pre & rest & -> & Hp & Hrest).
  apply map_eq_app in Hrest. destruct Hrest as (s' & post & -> & Hs & Hq).
  exists pre, s', post. split; [reflexivity|]. split; [|assumption].
  rewrite normalize_digits.
  - unfold normalize, replace, lower. rewrite map_map. symmetry. exact Hs.
  - unfold normalize, replace, lower. rewrite map_map, Hs. assumption.
Qed.

Lemma extract_total_in_text_witness :
  extract_total (of_string "Total: 45,50 EUR") = Some (of_string "45.50") /\
  exists pre s' post,
    of_string "Total: 45,50 EUR" = pre ++ s' ++ post /\
    of_string "45.50" = replace "," "." s' /\
    Forall (fun c => is_digit c = true \/ c = "."%char) (of_string "45.50").
Proof.
  split; [vm_compute; reflexivity|].
  apply (extract_total_in_text (of_string "Total: 45,50 EUR") (of_string "45.50")).
  vm_compute. reflexivity.
Defined.

End KeywordFacts.

(* ================================================================= *)
(** ** The textual tier of [extract_date] *)

Module DateFacts.
Import PyStr Re ReFacts Fields PyFloatFacts FieldsFacts Notions KeywordFacts.

Lemma alt_lit_match (l : list string) :
  forall b a g b' a' g',
    matches (alt (map Lit l)) b a g b' a' g' ->
    exists m, In m l /\ a = of_string m ++ a' /\
              b' = rev (of_string m) ++ b /\ g' = g.
Proof.
  induction l as [|m l IH]; intros b a g b' a' g' H.
  - simpl in H. inv H. discriminate.
  - destruct l as [|m' l].
    + simpl in H. apply literal_span in H. exists m. simpl. tauto.
    + change (alt (map Lit (m :: m' :: l)))
        with (Alt (Lit m) (alt (map Lit (m' :: l)))) in H.
      remember (alt (map Lit (m' :: l))) as r eqn:Er.
      inversion H; subst.
      * match goal with H : matches (Lit m) _ _ _ _ _ _ |- _ =>
          apply literal_span in H end.
        exists m. simpl. tauto.
      * match goal with H : matches (alt _) _ _ _ _ _ _ |- _ =>
          apply IH in H; destruct H as (x & Hx & Hrest) end.
        exists x. split; [right; assumption|assumption].
Qed.

Lemma alt_lit_intro (l : list string) (m : string) :
  In m l ->
  forall b a' g,
    matches (alt (map Lit l)) b (of_string m ++ a') g (rev (of_string m) ++ b) a' g.
Proof.
  induction l as [|x l IH]; intros Hin b a' g; [destruct Hin|].
  destruct l as [|x' l].
  - destruct Hin as [->|[]]. simpl. apply literal_intro.
  - change (alt (map Lit (x :: x' :: l)))
      with (Alt (Lit x) (alt (map Lit (x' :: l)))).
    destruct Hin as [->|Hin].
    + apply M_AltL. apply literal_intro.
    + apply M_AltR. apply IH. assumption.
Qed.

Lemma textual_date_match b a g b' a' g' :
  matches textual_date b a g b' a' g' ->
  exists d, a = d ++ a' /\ b' = rev d ++ b /\ is_textual_date d.
Proof.
  unfold textual_date. cbn [seq]. intros H.
  inv H. match goal with H : matches (Group _ _) _ _ _ _ _ _ |- _ => inv H end.
  match goal with H : matches month_names _ _ _ _ _ _ |- _ =>
    apply (alt_lit_match months) in H;
    destruct H as (month & Hmonth & -> & -> & ->) end.
  match goal with H : matches (Seq _ _) _ _ _ _ _ _ |- _ => inv H end.
  match goal with H : matches (Plus _) _ _ _ _ _ _ |- _ => inv H end.
  match goal with H : matches (Seq _ _) _ _ _ _ _ _ |- _ => inv H end.
  match goal with H : matches (Times _ _ _) _ _ _ _ _ _ |- _ => inv H end.
  match goal with H : matches (Opt _) _ _ _ _ _ _ |- _ => inv H end.
  - match goal with H : matches (Group _ _) _ _ _ _ _ _ |- _ => inv H end.
    match goal with H : matches (Seq _ _) _ _ _ _ _ _ |- _ => inv H end.
    match goal with H : matches (Class _) _ _ _ _ _ _ |- _ => inv H end.
    match goal with H : matches (Seq _ _) _ _ _ _ _ _ |- _ => inv H end.
    match goal with H : matches (Star _) _ _ _ _ _ _ |- _ => inv H end.
    match goal with H : matches (Times _ _ _) _ _ _ _ _ _ |- _ => inv H end.
    match goal with H : is_char _ _ = true |- _ =>
      apply Ascii.eqb_eq in H; subst end.
    match goal with
    | |- exists d, _ ++ ?ws ++ ?day ++ _ :: ?ws' ++ ?year ++ _ = _ /\ _ =>
        exists (of_string month ++ ws ++ day ++ ","%char :: ws' ++ year);
        split; [|split];
        [ repeat (rewrite <- app_assoc; simpl); reflexivity
        | repeat (rewrite rev_app_distr; simpl);
          repeat (rewrite <- app_assoc; simpl); reflexivity
        | exists month, ws, day, (","%char :: ws' ++ year) ]
    end.
    simpl in *. repeat split; auto; try lia.
    right. eexists _, _. repeat split; auto. lia.
  - match goal with
    | |- exists d, _ ++ ?ws ++ ?day ++ _ = _ /\ _ =>
        exists (of_string month ++ ws ++ day);
        split; [|split];
        [ repeat (rewrite <- app_assoc; simpl); reflexivity
        | repeat (rewrite rev_app_distr; simpl);
          repeat (rewrite <- app_assoc; simpl); reflexivity
        | exists month, ws, day, [] ]
    end.
    simpl in *. rewrite app_nil_r. repeat split; auto; lia.
Qed.

Lemma textual_date_intro d :
  is_textual_date d ->
  forall b a', exists g', matches textual_date b (d ++ a') [] (rev d ++ b) a' g'.
Proof.
  intros (month & ws & day & suffix & Hm & -> & Hws & Hsp & Hday & Hdig & Hsuf) b a'.
  unfold textual_date. cbn [seq].
  destruct Hsuf as [->|(ws' & year & -> & Hsp' & Hyear & Hydig)].
  - eexists.
    replace ((of_string month ++ ws ++ day ++ []) ++ a')
      with (of_string month ++ ws ++ day ++ a')
      by (repeat (rewrite <- app_assoc; simpl); reflexivity).
    eapply M_Seq; [apply M_Group; apply (alt_lit_intro months); assumption|].
    eapply M_Seq; [apply (matches_repeat is_space 1 None ws); simpl; auto|].
    eapply M_Seq; [apply (matches_repeat is_digit 1 (Some 2) day); simpl; auto; lia|].
    replace (rev (of_string month ++ ws ++ day ++ []) ++ b)
      with (rev day ++ rev ws ++ rev (of_string month) ++ b)
      by (repeat (rewrite rev_app_distr; simpl);
          repeat (rewrite <- app_assoc; simpl); reflexivity).
    apply M_OptNone.
  - eexists.
    replace ((of_string month ++ ws ++ day ++ ","%char :: ws' ++ year) ++ a')
      with (of_string month ++ ws ++ day ++ ","%char :: ws' ++ year ++ a')
      by (repeat (rewrite <- app_assoc; simpl); reflexivity).
    eapply M_Seq; [apply M_Group; apply (alt_lit_intro months); assumption|].
    eapply M_Seq; [apply (matches_repeat is_space 1 None ws); simpl; auto|].
    eapply M_Seq; [apply (matches_repeat is_digit 1 (Some 2) day); simpl; auto; lia|].
    apply M_OptSome. apply M_Group.
    eapply M_Seq; [apply M_Class; reflexivity|].
    eapply M_Seq; [apply (matches_repeat is_space 0 None ws'); simpl; auto with arith|].
    apply (matches_repeat is_digit 4 (Some 4) year); simpl; auto; try lia.
    repeat (rewrite rev_app_distr; simpl). repeat (rewrite <- app_assoc; simpl).
    reflexivity.
Qed.

Lemma found_textual_date t : found textual_date t <-> contains_textual_date t.
Proof.
  unfold found, contains_textual_date, occurs. split.
  - intros (pre & w & post & g & -> & H).
    apply textual_date_match in H. destruct H as (d & Hd & _ & Hform).
    apply app_inv_tail in Hd. subst w. eauto.
  - intros (pre & d & post & -> & Hd).
    destruct (textual_date_intro d Hd (rev pre) post) as (g' & Hm).
    exists pre, d, post, g'. auto.
Qed.

Lemma space_digit_uncased (c : ascii) :
  is_space c = true \/ is_digit c = true \/ c = ","%char ->
  is_lower c = false /\ is_upper c = false.
Proof.
  destruct c as [[] [] [] [] [] [] [] []]; vm_compute;
    intros [H|[H|H]]; try discriminate; split; reflexivity.
Qed.

Lemma title_uncased (s : text) :
  Forall (fun c => is_space c = true \/ is_digit c = true \/ c = ","%char) s ->
  forall cased, title_from cased s = s.
Proof.
  induction 1 as [|c s Hc _ IH]; intros cased; simpl; [reflexivity|].
  destruct (space_digit_uncased c Hc) as [-> ->]. rewrite IH. reflexivity.
Qed.

Lemma title_month (month : string) (rest : text) :
  In month months ->
  title (of_string month ++ rest) = title (of_string month) ++ title_from true rest.
Proof.
  unfold months. intros H.
  repeat (destruct H as [<-|H]; [reflexivity|]). destruct H.
Qed.

Lemma textual_date_rest month ws day suffix :
  Forall (fun c => is_space c = true) ws ->
  Forall (fun c => is_digit c = true) day ->
  (suffix = [] \/
   exists ws' year,
     suffix = ","%char :: ws' ++ year /\
     Forall (fun c => is_space c = true) ws' /\
     length year = 4 /\ Forall (fun c => is_digit c = true) year) ->
  In month months ->
  title (of_string month ++ ws ++ day ++ suffix)
  = title (of_string month) ++ ws ++ day ++ suffix.
Proof.
  intros Hws Hday Hsuf Hm. rewrite title_month by assumption. f_equal.
  apply title_uncased. apply Forall_app. split.
  { eapply Forall_impl; [|exact Hws]. auto. }
  apply Forall_app. split.
  { eapply Forall_impl; [|exact Hday]. auto. }
  destruct Hsuf as [->|(ws' & year & -> & Hsp & _ & Hy)]; [constructor|].
  constructor; [auto|]. apply Forall_app. split.
  - eapply Forall_impl; [|exact Hsp]. auto.
  - eapply Forall_impl; [|exact Hy]. auto.
Qed.

Lemma title_from_length (s : text) :
  forall cased, length (title_from cased s) = length s.
Proof.
  induction s as [|c s IH]; intros cased; simpl; [reflexivity|].
  destruct (is_lower c); [|destruct (is_upper c)]; simpl; rewrite IH; reflexivity.
Qed.

(** X4.  The textual tier: with no numeric date in the text, the date
    returned is the leftmost month name of the lower-cased text that is
    followed by white space and a day of one or two digits, with the
    month capitalized and whatever follows it -- the white space, the
    day, an optional comma with a four-digit year -- as it stands in
    the lower-cased text. *)
Theorem extract_date_textual_tier (text d : text) :
  ~ contains_numeric_date text ->
  extract_date text = Some d ->
  exists pre month rest post,
    In month months /\
    lower text = pre ++ (of_string month ++ rest) ++ post /\
    is_textual_date (of_string month ++ rest) /\
    d = title (of_string month) ++ rest /\
    (forall pre' d' post',
        lower text = pre' ++ d' ++ post' -> is_textual_date d' ->
        length pre <= length pre').
Proof.
  intros Hnum H. unfold extract_date in H.
  destruct (search numeric_date text) eqn:En.
  { exfalso. apply Hnum. apply found_numeric_date. eapply found_of_search; eauto. }
  destruct (search textual_date (lower text)) as [m|] eqn:Et; [|discriminate].
  injection H as <-.
  destruct (search_some _ _ _ Et) as (Hs & Hocc & Hleft).
  apply textual_date_match in Hocc. destruct Hocc as (s & Hd & _ & Hform).
  apply app_inv_tail in Hd. rewrite Hd in *.
  pose proof Hform as (month & ws & day & suffix & Hm & -> & Hws & Hsp & Hday & Hdig & Hsuf).
  exists (m_pre m), month, (ws ++ day ++ suffix), (m_post m).
  split; [assumption|]. split; [assumption|]. split; [assumption|]. split.
  - apply textual_date_rest; assumption.
  - intros pre' d' post' Hs' Hd'.
    destruct (textual_date_intro d' Hd' (rev pre') post') as (g' & Hm').
    eapply Hleft; eauto.
Qed.

Lemma extract_date_textual_tier_witness :
  (~ contains_numeric_date (of_string "Issued: MARCH 5, 2023") /\
   extract_date (of_string "Issued: MARCH 5, 2023") = Some (of_string "March 5, 2023")) /\
  exists pre month rest post,
    In month months /\
    lower (of_string "Issued: MARCH 5, 2023") = pre ++ (of_string month ++ rest) ++ post /\
    is_textual_date (of_string month ++ rest) /\
    of_string "March 5, 2023" = title (of_string month) ++ rest /\
    (forall pre' d' post',
        lower (of_string "Issued: MARCH 5, 2023") = pre' ++ d' ++ post' ->
        is_textual_date d' -> length pre <= length pre').
Proof.
  assert (H1 : ~ contains_numeric_date (of_string "Issued: MARCH 5, 2023")).
  { intros H. apply found_numeric_date in H. revert H. apply search_none.
    vm_compute. reflexivity. }
  assert (H2 : extract_date (of_string "Issued: MARCH 5, 2023")
               = Some (of_string "March 5, 2023")) by (vm_compute; reflexivity).
  split; [split; assumption|].
  exact (extract_date_textual_tier _ _ H1 H2).
Defined.

(** X5.  [extract_date] finds nothing exactly when the text holds no
    numeric date and its lower-cased form holds no month name followed
    by white space and a day. *)
Theorem extract_date_none (text : text) :
  extract_date text = None <->
  ~ contains_numeric_date text /\ ~ contains_textual_date (lower text).
Proof.
  rewrite <- found_numeric_date, <- found_textual_date, <- !search_none.
  unfold extract_date.
  destruct (search numeric_date text); [split; [discriminate|intros [? _]; discriminate]|].
  destruct (search textual_date (lower text));
    [split; [discriminate|intros [_ ?]; discriminate]|].
  split; auto.
Qed.

Lemma extract_date_nonempty (text d : text) :
  extract_date text = Some d -> 5 <= length d.
Proof.
  unfold extract_date. intros H.
  destruct (search numeric_date text) as [m|] eqn:En.
  - injection H as <-. apply search_some in En. destruct En as (_ & Hocc & _).
    apply numeric_date_match in Hocc. destruct Hocc as (s & Hs & _ & Hform).
    apply app_inv_tail in Hs. rewrite Hs.
    destruct Hform as (d1 & s1 & d2 & s2 & y & -> & _ & H1 & H2 & H3 & _).
    repeat (rewrite length_app; simpl). lia.
  - destruct (search textual_date (lower text)) as [m|] eqn:Et; [|discriminate].
    injection H as <-. unfold title. rewrite title_from_length.
    apply search_some in Et. destruct Et as (_ & Hocc & _).
    apply textual_date_match in Hocc. destruct Hocc as (s & Hs & _ & Hform).
    apply app_inv_tail in Hs. rewrite Hs.
    destruct Hform as (month & ws & day & suffix & Hm & -> & Hws & _ & Hday & _).
    repeat (rewrite length_app; simpl).
    assert (3 <= length (of_string month)).
    { unfold months in Hm.
      repeat (destruct Hm as [<-|Hm]; [simpl; lia|]). destruct Hm. }
    lia.
Qed.

End DateFacts.

(* ================================================================= *)
(** ** Samples and shape through the adjustment *)

Module PixelFacts.
Import Preprocess PreprocessFacts Notions.
Local Open Scope Z_scope.


Lemma cvRound_integer (n : Z) : cvRound (Qabs (inject_Z n * 1 + inject_Z 0)) = Z.abs n.
Proof.
  unfold cvRound, PyFloat.round_half_even. simpl.
  rewrite Z.mul_1_r, Z.add_0_r, Z.mul_1_r, Z.div_1_r, Z.mod_1_r. reflexivity.
Qed.


Lemma scale_abs_default (p : Z) : is_uchar p -> scale_abs 1 0 p = p.
Proof.
  intros Hp. unfold scale_abs. rewrite cvRound_integer.
  unfold is_uchar in Hp. rewrite Z.abs_eq by lia.
  unfold saturate_uchar.
  destruct (p <? 0) eqn:E0; [apply Z.ltb_lt in E0; lia|].
  destruct (255 <? p) eqn:E1; [apply Z.ltb_lt in E1; lia|reflexivity].
Qed.

Lemma map_id_on (A : Type) (f : A -> A) (P : A -> Prop) (l : list A) :
  (forall x, P x -> f x = x) -> Forall P l -> map f l = l.
Proof.
  intros Hf H. induction H as [|x l Hx _ IH]; simpl; [reflexivity|].
  rewrite Hf, IH by assumption. reflexivity.
Qed.

Lemma convertScaleAbs_default (src : image) :
  is_8bit src -> convertScaleAbs 1 0 src = src.
Proof.
  unfold is_8bit, convertScaleAbs. intros H.
  apply (map_id_on _ _ (Forall (Forall is_uchar))); [|assumption].
  intros row Hrow. apply (map_id_on _ _ (Forall is_uchar)); [|assumption].
  intros px Hpx. apply (map_id_on _ _ is_uchar); [|assumption].
  apply scale_abs_default.
Qed.

Lemma scale_abs_opp (alpha : Q) (beta p : Z) :
  scale_abs (- alpha) (- beta) p = scale_abs alpha beta p.
Proof.
  unfold scale_abs. f_equal. f_equal.
  destruct alpha as [n d]. unfold Qabs, Qplus, Qmult, Qopp, inject_Z. simpl.
  f_equal. rewrite <- Z.abs_opp. f_equal. ring.
Qed.

Section Chain.

Variable file : Type.
Variable imread : file -> option image.
Variable GaussianBlur : Z * Z -> Z -> image -> image.
Variable cvtColor_BGR2GRAY : image -> image.
Variable clahe_apply : image -> image.

(** X7.  With the default contrast 1 and brightness 0 and a blur that
    is not positive, the adjustment and the smoothing leave a decoded
    8-bit image as it is: the grayscale conversion receives the decoded
    image itself. *)
Theorem default_parameters_keep_image (image_path : file) (src : image) (blur : Z) :
  imread image_path = Some src -> is_8bit src -> blur <= 0 ->
  preprocess_image imread GaussianBlur cvtColor_BGR2GRAY clahe_apply
    image_path 1 0 blur
  = Some (clahe_apply (GaussianBlur (5, 5) 0 (cvtColor_BGR2GRAY src))).
Proof.
  intros Hread H8 Hblur. unfold preprocess_image, smooth. rewrite Hread.
  rewrite convertScaleAbs_default by assumption.
  destruct (blur >? 0) eqn:E; [|reflexivity].
  rewrite Z.gtb_ltb in E. apply Z.ltb_lt in E. lia.
Qed.

(** X8.  Negating the contrast and the brightness together changes
    nothing: the chain sees only the absolute value of each adjusted
    sample. *)
Theorem negated_adjustment_same_image (image_path : file) (contrast : Q)
    (brightness blur : Z) :
  preprocess_image imread GaussianBlur cvtColor_BGR2GRAY clahe_apply
    image_path (- contrast) (- brightness) blur
  = preprocess_image imread GaussianBlur cvtColor_BGR2GRAY clahe_apply
      image_path contrast brightness blur.
Proof.
  unfold preprocess_image. destruct (imread image_path) as [src|]; [|reflexivity].
  replace (convertScaleAbs (- contrast) (- brightness) src)
    with (convertScaleAbs contrast brightness src); [reflexivity|].
  unfold convertScaleAbs. apply map_ext. intros row. apply map_ext. intros px.
  apply map_ext. intros p. symmetry. apply scale_abs_opp.
Qed.

End Chain.

Lemma default_parameters_keep_image_witness :
  let src : image := [[[0; 128; 255]; [7; 8; 9]]] in
  (Some src = Some src /\ is_8bit src /\ (-3) <= 0) /\
  preprocess_image (fun f : image => Some f)
    (fun (_ : Z * Z) (_ : Z) (i : image) => i) (fun i => i) (fun i => i)
    src 1 0 (-3)
  = Some src.
Proof.
  intros src.
  assert (H8 : is_8bit src) by (repeat constructor; unfold is_uchar; lia).
  split; [repeat split; [exact H8|lia]|].
  exact (default_parameters_keep_image image (fun f : image => Some f)
           (fun (_ : Z * Z) (_ : Z) (i : image) => i) (fun i => i) (fun i => i)
           src src (-3) eq_refl H8 ltac:(lia)).
Defined.

End PixelFacts.

(* ================================================================= *)
(** ** [strip] *)

Module StripFacts.
Import PyStr Notions.

Lemma lstrip_split (s : text) :
  exists sp, s = sp ++ lstrip s /\ Forall (fun c => is_space c = true) sp /\
             starts_with_space (lstrip s) = false.
Proof.
  induction s as [|c s IH]; simpl.
  - exists []. auto.
  - destruct (is_space c) eqn:E.
    + destruct IH as (sp & Hs & Hsp & Hhd). exists (c :: sp). simpl.
      rewrite <- Hs. auto.
    + exists []. simpl. auto.
Qed.

Lemma strip_split (s : text) :
  exists l r,
    s = l ++ strip s ++ r /\
    Forall (fun c => is_space c = true) l /\
    Forall (fun c => is_space c = true) r /\
    starts_with_space (strip s) = false /\
    starts_with_space (rev (strip s)) = false.
Proof.
  unfold strip.
  destruct (lstrip_split s) as (l & Hs & Hl & Hhd).
  destruct (lstrip_split (rev (lstrip s))) as (r & Hr & Hsp & Hhd').
  exists l, (rev r). rewrite rev_involutive.
  split; [|split; [assumption|split; [|split; [|assumption]]]].
  - rewrite <- rev_app_distr, <- Hr, rev_involutive. exact Hs.
  - apply Forall_rev. assumption.
  - apply (f_equal (@rev ascii)) in Hr. rewrite rev_involutive, rev_app_distr in Hr.
    rewrite Hr in Hhd.
    destruct (rev (lstrip (rev (lstrip s)))); [reflexivity|exact Hhd].
Qed.

End StripFacts.

(* ================================================================= *)
(** ** Records of the [/analyze] route and the data file *)

Module RouteFacts.
Import PyStr Store Analyze AnalyzeFacts StoreFacts Fields FieldsFacts Notions.
Import KeywordFacts DateFacts StripFacts.

Section Route.

Variable file : Type.
Variable imread : file -> option Preprocess.image.
Variable GaussianBlur : Z * Z -> Z -> Preprocess.image -> Preprocess.image.
Variable cvtColor_BGR2GRAY : Preprocess.image -> Preprocess.image.
Variable clahe_apply : Preprocess.image -> Preprocess.image.
Variable image_to_string : Preprocess.image -> text.
Variable content : Type.
Variable json_load : content -> outcome json.
Variable json_dump : json -> content.

Variable contrast : Q.
Variable brightness blur : Z.

Abbreviation preprocess :=
  (Preprocess.preprocess_image imread GaussianBlur cvtColor_BGR2GRAY clahe_apply).
Abbreviation analyze_image :=
  (analyze_image imread GaussianBlur cvtColor_BGR2GRAY clahe_apply
     image_to_string contrast brightness blur).
Abbreviation analyze_loop :=
  (analyze_loop imread GaussianBlur cvtColor_BGR2GRAY clahe_apply
     image_to_string contrast brightness blur).
Abbreviation records_of :=
  (records_of imread GaussianBlur cvtColor_BGR2GRAY clahe_apply
     image_to_string contrast brightness blur).
Abbreviation analyze_invoice :=
  (analyze_invoice imread GaussianBlur cvtColor_BGR2GRAY clahe_apply
     image_to_string json_load json_dump contrast brightness blur).

Lemma found_fields_truthy (text d t : PyStr.text) :
  extract_date text = Some d -> extract_total text = Some t ->
  truthy (Some d) && truthy (Some t) = true.
Proof.
  intros Hd Ht. apply extract_date_nonempty in Hd.
  apply total_amount_form in Ht.
  destruct d; [simpl in Hd; lia|]. destruct t; [discriminate|]. reflexivity.
Qed.

(** X9.  An image yields a record exactly when it decodes and both a
    date and a total are found in its text: a field that is found is
    never an empty string, so the truth test of the loop rejects
    nothing that was found.  The record carries the file name, the two
    fields as extracted and the stripped text. *)
Theorem record_iff_both_fields (img : upload file) (entry : json) :
  analyze_image img = Some entry <->
  exists processed d t,
    preprocess (saved img) contrast brightness blur = Some processed /\
    extract_date (image_to_string processed) = Some d /\
    extract_total (image_to_string processed) = Some t /\
    entry = JObject [(of_string "filename", JString (filename img));
                     (of_string "date", JString d);
                     (of_string "total", JString t);
                     (of_string "note", JString (strip (image_to_string processed)))].
Proof.
  unfold Analyze.analyze_image, extract_text.
  destruct (preprocess (saved img) contrast brightness blur) as [processed|].
  - destruct (extract_date (image_to_string processed)) as [d|] eqn:Ed;
      destruct (extract_total (image_to_string processed)) as [t|] eqn:Et.
    + rewrite (found_fields_truthy _ _ _ Ed Et). split.
      * intros H. injection H as <-. exists processed, d, t. auto.
      * intros (p & d' & t' & Hp & Hd & Ht & ->).
        injection Hp as <-. rewrite Ed in Hd. rewrite Et in Ht.
        injection Hd as <-. injection Ht as <-. reflexivity.
    + split; [discriminate|]. intros (p & d' & t' & Hp & Hd & Ht & _).
      injection Hp as <-. congruence.
    + split; [discriminate|]. intros (p & d' & t' & Hp & Hd & Ht & _).
      injection Hp as <-. congruence.
    + split; [discriminate|]. intros (p & d' & t' & Hp & Hd & Ht & _).
      injection Hp as <-. congruence.
  - split; [discriminate|]. intros (p & d' & t' & Hp & _). discriminate.
Qed.

(** X10.  The note of a record is the text of the image without the
    white space at its two ends: it neither begins nor ends with a
    white-space character, and only white space was removed. *)
Theorem record_note_stripped (img : upload file) (members : list (text * json)) :
  analyze_image img = Some (JObject members) ->
  exists processed note l r,
    preprocess (saved img) contrast brightness blur = Some processed /\
    nth_error members 3 = Some (of_string "note", JString note) /\
    image_to_string processed = l ++ note ++ r /\
    Forall (fun c => is_space c = true) l /\
    Forall (fun c => is_space c = true) r /\
    starts_with_space note = false /\
    starts_with_space (rev note) = false.
Proof.
  unfold Analyze.analyze_image, extract_text.
  destruct (preprocess (saved img) contrast brightness blur) as [processed|];
    [|discriminate].
  destruct (extract_date (image_to_string processed)) as [d|]; [|discriminate].
  destruct (extract_total (image_to_string processed)) as [t|]; [|discriminate].
  destruct (truthy (Some d) && truthy (Some t)); [|discriminate].
  intros H. injection H as <-.
  destruct (strip_split (image_to_string processed)) as (l & r & H).
  exists processed, (strip (image_to_string processed)), l, r.
  split; [reflexivity|]. split; [reflexivity|]. exact H.
Qed.

Hypothesis load_dump : forall v, json_load (json_dump v) = Return v.


(** X12.  A data file whose content does not parse is treated as empty
    and overwritten: after an append it holds the new records only. *)
Theorem corrupt_store_replaced (c : content) (e : string) (new_entries : list json) :
  json_load c = Raise e ->
  exists f',
    save_invoice_data json_load json_dump new_entries (Some c) = Return f' /\
    load_saved_data json_load f' = Return (JArray new_entries).
Proof.
  intros H. unfold save_invoice_data. simpl. rewrite H.
  eexists. split; [reflexivity|]. simpl. rewrite load_dump. reflexivity.
Qed.

(** X13.  A data file that holds a JSON document other than a list is
    returned as it is by [load_saved_data], and appending to it raises
    [AttributeError]: a batch that produced records then fails after
    all its images were processed, a batch without records returns. *)
Theorem non_list_store_raises (c : content) (v : json) (images : list (upload file))
    (new_entries : list json) :
  json_load c = Return v -> is_array v = false ->
  load_saved_data json_load (Some c) = Return v /\
  save_invoice_data json_load json_dump new_entries (Some c)
  = Raise "AttributeError"%string /\
  (records_of images <> [] ->
   analyze_invoice images (Some c) = Raise "AttributeError"%string) /\
  (records_of images = [] ->
   analyze_invoice images (Some c) = Return ([], Some c)).
Proof.
  intros Hc Hv.
  assert (Hl : load_saved_data json_load (Some c) = Return v)
    by (simpl; rewrite Hc; reflexivity).
  assert (Hs : forall entries,
             save_invoice_data json_load json_dump entries (Some c)
             = Raise "AttributeError"%string).
  { intros entries. unfold save_invoice_data. rewrite Hl.
    destruct v; try reflexivity. discriminate. }
  split; [exact Hl|]. split; [apply Hs|].
  unfold Analyze.analyze_invoice.
  rewrite (analyze_loop_records file imread GaussianBlur cvtColor_BGR2GRAY
             clahe_apply image_to_string contrast brightness blur images []).
  simpl app. split.
  - intros Hne. destruct (records_of images); [contradiction|].
    rewrite Hs. reflexivity.
  - intros ->. reflexivity.
Qed.

End Route.

Lemma record_note_stripped_witness :
  let img := sample_good "1.png" in
  let members :=
    [(of_string "filename", JString (of_string "1.png"));
     (of_string "date", JString (of_string "03/14/2024"));
     (of_string "total", JString (of_string "45.50"));
     (of_string "note", JString (of_string "Invoice date 03/14/2024 Total Due: $45.50"))] in
  Analyze.analyze_image sample_imread sample_blur sample_step sample_step
    sample_ocr 1 0%Z 0%Z img = Some (JObject members) /\
  exists processed note l r,
    Preprocess.preprocess_image sample_imread sample_blur sample_step sample_step
      (saved img) 1 0%Z 0%Z = Some processed /\
    nth_error members 3 = Some (of_string "note", JString note) /\
    sample_ocr processed = l ++ note ++ r /\
    Forall (fun c => is_space c = true) l /\
    Forall (fun c => is_space c = true) r /\
    starts_with_space note = false /\
    starts_with_space (rev note) = false.
Proof.
  intros img members.
  assert (H : Analyze.analyze_image sample_imread sample_blur sample_step
                sample_step sample_ocr 1 0%Z 0%Z img = Some (JObject members))
    by (vm_compute; reflexivity).
  split; [exact H|].
  exact (record_note_stripped (option Preprocess.image) sample_imread sample_blur
           sample_step sample_step sample_ocr 1 0%Z 0%Z img members H).
Defined.


Lemma corrupt_store_replaced_witness :
  (sample_load None = Raise "JSONDecodeError"%string) /\
  exists f',
    save_invoice_data sample_load sample_dump [JString (of_string "A")] (Some None)
    = Return f' /\
    load_saved_data sample_load f' = Return (JArray [JString (of_string "A")]).
Proof.
  split; [reflexivity|].
  exact (corrupt_store_replaced sample_content sample_load sample_dump
           (fun v => eq_refl) None "JSONDecodeError"%string
           [JString (of_string "A")] eq_refl).
Defined.

Lemma non_list_store_raises_witness :
  let images := [sample_good "1.png"] in
  let document := JObject [] in
  let records :=
    Analyze.records_of sample_imread sample_blur sample_step sample_step
      sample_ocr 1 0%Z 0%Z images in
  let analyze_invoice :=
    Analyze.analyze_invoice sample_imread sample_blur sample_step sample_step
      sample_ocr sample_load sample_dump 1 0%Z 0%Z in
  (sample_load (Some document) = Return document /\
   is_array document = false) /\
  load_saved_data sample_load (Some (Some document)) = Return document /\
  save_invoice_data sample_load sample_dump records (Some (Some document))
  = Raise "AttributeError"%string /\
  (records <> [] ->
   analyze_invoice images (Some (Some document)) = Raise "AttributeError"%string) /\
  (records = [] ->
   analyze_invoice images (Some (Some document)) = Return ([], Some (Some document))).
Proof.
  intros images document records analyze_invoice.
  split; [split; reflexivity|].
  exact (non_list_store_raises (option Preprocess.image) sample_imread
           sample_blur sample_step sample_step sample_ocr sample_content
           sample_load sample_dump 1 0%Z 0%Z (Some document) document
           images records eq_refl eq_refl).
Defined.

End RouteFacts.

(* ================================================================= *)
(** ** Form parameters *)

Module ParamsFacts.
Import PyStr Store Params.

Lemma int_of_float_cases (x : pyfloat) :
  (exists z, int_of_float x = Return z) \/
  int_of_float x = Raise "OverflowError"%string \/
  int_of_float x = Raise "ValueError"%string.
Proof. destruct x; simpl; eauto. Qed.

Section Params.

Variable float_of_str : text -> option pyfloat.

Lemma float_field_cases key default f :
  (exists x, float_field float_of_str key default f = Return x) \/
  float_field float_of_str key default f = Raise "ValueError"%string.
Proof.
  unfold float_field. destruct (form_get key f) as [s|]; [|eauto].
  destruct (float_of_str s); eauto.
Qed.

Lemma int_field_cases key default f :
  (exists z, int_field float_of_str key default f = Return z) \/
  int_field float_of_str key default f = Raise "OverflowError"%string \/
  int_field float_of_str key default f = Raise "ValueError"%string.
Proof.
  unfold int_field.
  destruct (float_field_cases key default f) as [(x & ->) | -> ]; [|auto].
  apply int_of_float_cases.
Qed.

(** X14.  The parameters of [/analyze] are all taken from the form or
    all replaced by the defaults: a field that is malformed makes the
    route drop the well-formed ones too.  The only other outcome is an
    [OverflowError] that the route does not catch. *)
Theorem analyze_params_all_or_nothing (f : form) :
  (forall contrast brightness blur,
      analyze_params float_of_str f = Return (contrast, brightness, blur) ->
      (float_field float_of_str "contrast" 1 f = Return contrast /\
       int_field float_of_str "brightness" 0 f = Return brightness /\
       int_field float_of_str "blur" 0 f = Return blur) \/
      ((contrast, brightness, blur) = (Finite 1, 0%Z, 0%Z) /\
       read_params float_of_str f = Raise "ValueError"%string)) /\
  (forall e, analyze_params float_of_str f = Raise e -> e = "OverflowError"%string).
Proof.
  unfold analyze_params, read_params.
  destruct (float_field_cases "contrast" 1 f) as [(c & ->) | -> ];
    [|split; [intros ? ? ? H; injection H as <- <- <-; auto|discriminate]].
  destruct (int_field_cases "brightness" 0 f) as [(b & ->) | [ -> | -> ]];
    [|split; [discriminate|intros e H; injection H as <-; reflexivity]
     |split; [intros ? ? ? H; injection H as <- <- <-; auto|discriminate]].
  destruct (int_field_cases "blur" 0 f) as [(r & ->) | [ -> | -> ]];
    [|split; [discriminate|intros e H; injection H as <-; reflexivity]
     |split; [intros ? ? ? H; injection H as <- <- <-; auto|discriminate]].
  split; [|discriminate]. intros ? ? ? H. injection H as <- <- <-. auto.
Qed.

(** X15.  An infinite brightness or blur is not a malformed field:
    [int] raises [OverflowError], which neither route catches, so the
    request fails instead of getting the 400 answer or the defaults. *)
Theorem infinite_field_not_caught (f : form) (contrast : pyfloat) (negative : bool) :
  float_field float_of_str "contrast" 1 f = Return contrast ->
  float_field float_of_str "brightness" 0 f = Return (Infinite negative) \/
  ((exists brightness, int_field float_of_str "brightness" 0 f = Return brightness) /\
   float_field float_of_str "blur" 0 f = Return (Infinite negative)) ->
  analyze_params float_of_str f = Raise "OverflowError"%string /\
  preview_params float_of_str f = Raise "OverflowError"%string.
Proof.
  intros Hc H. unfold analyze_params, preview_params, read_params. rewrite Hc.
  destruct H as [Hb|[(b & Hb) Hr]].
  - unfold int_field at 1 3. rewrite Hb. simpl. auto.
  - rewrite Hb. unfold int_field. rewrite Hr. simpl. auto.
Qed.

Lemma quot_below_one (n d : Z) : (0 < d)%Z -> (n < d)%Z -> (Z.quot n d <= 0)%Z.
Proof.
  intros Hd Hn. destruct (Z_lt_le_dec n 0) as [Hneg|Hpos].
  - replace n with (- - n)%Z by lia. rewrite Z.quot_opp_l by lia.
    pose proof (Z.quot_pos (- n) d ltac:(lia) Hd). lia.
  - rewrite Z.quot_small by lia. lia.
Qed.

(** X16.  A blur field whose value is below 1 -- a fraction, zero, any
    negative number -- becomes a radius that is not positive, and the
    chain does not smooth. *)
Theorem blur_below_one_no_smoothing (f : form) (q : Q) :
  float_field float_of_str "blur" 0 f = Return (Finite q) ->
  (q < 1)%Q ->
  exists blur,
    int_field float_of_str "blur" 0 f = Return blur /\ (blur <= 0)%Z /\
    forall GaussianBlur adjusted,
      Preprocess.smooth GaussianBlur blur adjusted = adjusted.
Proof.
  intros Hf Hq. unfold int_field. rewrite Hf. simpl.
  eexists. split; [reflexivity|].
  assert (Hz : (Z.quot (Qnum q) (Zpos (Qden q)) <= 0)%Z).
  { apply quot_below_one; [lia|]. unfold Qlt in Hq. simpl in Hq. lia. }
  split; [exact Hz|].
  intros GaussianBlur adjusted. unfold Preprocess.smooth.
  destruct (Z.quot (Qnum q) (Zpos (Qden q)) >? 0)%Z eqn:E; [|reflexivity].
  rewrite Z.gtb_ltb in E. apply Z.ltb_lt in E. lia.
Qed.

End Params.

Lemma infinite_field_not_caught_witness :
  let f : form := [("contrast", of_string "2.5"); ("brightness", of_string "inf")]%string in
  (float_field sample_float "contrast" 1 f = Return (Finite (5 # 2)) /\
   float_field sample_float "brightness" 0 f = Return (Infinite false)) /\
  analyze_params sample_float f = Raise "OverflowError"%string /\
  preview_params sample_float f = Raise "OverflowError"%string.
Proof.
  intros f. split; [split; reflexivity|].
  exact (infinite_field_not_caught sample_float f (Finite (5 # 2)) false
           eq_refl (or_introl eq_refl)).
Defined.

Lemma blur_below_one_no_smoothing_witness :
  let f : form := [("blur", of_string "-0.9")]%string in
  (float_field sample_float "blur" 0 f = Return (Finite (- 9 # 10)) /\
   (- 9 # 10 < 1)%Q) /\
  exists blur,
    int_field sample_float "blur" 0 f = Return blur /\ (blur <= 0)%Z /\
    forall GaussianBlur adjusted,
      Preprocess.smooth GaussianBlur blur adjusted = adjusted.
Proof.
  intros f.
  assert (Hq : (- 9 # 10 < 1)%Q) by reflexivity.
  split; [split; [reflexivity|exact Hq]|].
  exact (blur_below_one_no_smoothing sample_float f (- 9 # 10) eq_refl Hq).
Defined.

End ParamsFacts.
